(** * The cosine kernel of gpytorch (gpytorch/kernels/cosine_kernel.py)

    A shallow embedding of [CosineKernel]: its constructor, the
    [period_length] property, [preprocess_data] and [forward], together
    with the part of torch's tensor semantics these four use (shapes,
    broadcasting, [unsqueeze], [norm], pointwise functions).

    Tensor entries are real numbers: the development is about the
    arithmetic the code writes down, with the rounding of the floating
    point unit left out. *)

From Stdlib Require Import String Reals Lra Lia Arith Bool List.
Import ListNotations.

Local Open Scope R_scope.

(** ** Tensors *)

(** A tensor is a shape and a map from indices to entries; only the
    entries at indices inside the shape are meaningful. *)
Record tensor : Type := mkTensor {
  shape : list nat;
  get : list nat -> R
}.

(** [idx] addresses an entry of a tensor of shape [s]. *)
Definition in_range (s idx : list nat) : Prop := Forall2 lt idx s.

(** Two tensors with the same shape and the same entries. *)
Definition teq (a b : tensor) : Prop :=
  shape a = shape b /\
  forall idx, in_range (shape a) idx -> get a idx = get b idx.

Definition ndimension (t : tensor) : nat := length (shape t).

(** Tensors out of nested Python lists. *)
Definition tensor1 (l : list R) : tensor :=
  mkTensor [length l]
    (fun idx => match idx with
                | [k] => nth k l 0
                | _ => 0
                end).

Definition tensor2 (l : list (list R)) : tensor :=
  mkTensor [length l; length (hd [] l)]
    (fun idx => match idx with
                | [i; k] => nth k (nth i l []) 0
                | _ => 0
                end).

Definition tensor3 (l : list (list (list R))) : tensor :=
  mkTensor [length l; length (hd [] l); length (hd [] (hd [] l))]
    (fun idx => match idx with
                | [b; i; k] => nth k (nth i (nth b l []) []) 0
                | _ => 0
                end).

(** [torch.zeros] and, more generally, a constant tensor. *)
Definition full (s : list nat) (v : R) : tensor := mkTensor s (fun _ => v).
Definition zeros (s : list nat) : tensor := full s 0.

(** ** Errors *)

(** A torch call that raises is modelled by [None]. *)
Definition bind {A B : Type} (m : option A) (f : A -> option B) : option B :=
  match m with
  | Some a => f a
  | None => None
  end.

Notation "x <- m ;; k" := (bind m (fun x => k))
  (at level 61, m at next level, right associativity).
Notation "' ( x , y ) <- m ;; k" := (bind m (fun p => let '(x, y) := p in k))
  (at level 61, x name, y name, m at next level, right associativity).

(** ** Broadcasting *)

(** Two sizes of one axis are compatible when they are equal or one of
    them is 1; the result takes the other one. *)
Definition bdim (a b : nat) : option nat :=
  if (a =? b)%nat then Some a
  else if (a =? 1)%nat then Some b
  else if (b =? 1)%nat then Some a
  else None.

(** Shapes are aligned at their last axis, so the walk is over the
    reversed shapes; a missing leading axis counts as absent. *)
Fixpoint broadcast_rev (s1 s2 : list nat) : option (list nat) :=
  match s1, s2 with
  | [], _ => Some s2
  | _, [] => Some s1
  | a :: s1', b :: s2' =>
      c <- bdim a b ;;
      r <- broadcast_rev s1' s2' ;;
      Some (c :: r)
  end.

Definition broadcast_shapes (s1 s2 : list nat) : option (list nat) :=
  option_map (@rev nat) (broadcast_rev (rev s1) (rev s2)).

(** The index of the operand of shape [s] that feeds the entry [idx] of
    the broadcast result: leading axes the operand lacks are dropped, an
    axis of size 1 is read at 0. *)
Fixpoint bindex_rev (s idx : list nat) : list nat :=
  match s, idx with
  | a :: s', i :: idx' => (if (a =? 1)%nat then 0%nat else i) :: bindex_rev s' idx'
  | _, _ => []
  end.

Definition bindex (s idx : list nat) : list nat :=
  rev (bindex_rev (rev s) (rev idx)).

(** A pointwise binary operation with broadcasting. *)
Definition map2 (f : R -> R -> R) (a b : tensor) : option tensor :=
  s <- broadcast_shapes (shape a) (shape b) ;;
  Some (mkTensor s
          (fun idx => f (get a (bindex (shape a) idx))
                        (get b (bindex (shape b) idx)))).

Definition div : tensor -> tensor -> option tensor := map2 Rdiv.
Definition sub : tensor -> tensor -> option tensor := map2 Rminus.
Definition add : tensor -> tensor -> option tensor := map2 Rplus.

(** ** Pointwise functions *)

Definition map1 (f : R -> R) (a : tensor) : tensor :=
  mkTensor (shape a) (fun idx => f (get a idx)).

Definition texp : tensor -> tensor := map1 exp.
Definition tcos : tensor -> tensor := map1 cos.

(** [t.mul(c)] with a Python number [c]. *)
Definition mul (a : tensor) (c : R) : tensor := map1 (fun x => x * c) a.

(** [clamp(lo, hi)]: [min(max(x, lo), hi)] at every entry. *)
Definition clamp1 (lo hi x : R) : R := Rmin (Rmax x lo) hi.
Definition clamp (a : tensor) (lo hi : R) : tensor := map1 (clamp1 lo hi) a.

(** The same bound written as the two comparisons of the older
    documentation. *)
Definition clamp1_cases (lo hi x : R) : R :=
  if Rlt_dec x lo then lo else if Rlt_dec hi x then hi else x.

(** ** Reshaping and reduction *)

(** [t.unsqueeze(dim)] for [0 <= dim <= t.ndimension()]: a new axis of
    size 1 at position [dim]. *)
Definition unsqueeze (dim : nat) (a : tensor) : option tensor :=
  if (dim <=? ndimension a)%nat then
    Some (mkTensor (firstn dim (shape a) ++ 1%nat :: skipn dim (shape a))
            (fun idx => get a (firstn dim idx ++ skipn (S dim) idx)))
  else None.

(** [f 0 + ... + f (n-1)]. *)
Fixpoint sum_n (n : nat) (f : nat -> R) : R :=
  match n with
  | O => 0
  | S m => sum_n m f + f m
  end.

(** [torch.norm(t, 2, dim=-1)]: the Euclidean norm along the last axis,
    which disappears; a tensor with no axis is one number and its norm is
    that number's absolute value. *)
Definition norm2_last (a : tensor) : tensor :=
  match rev (shape a) with
  | [] => mkTensor [] (fun _ => sqrt (Rsqr (get a [])))
  | d :: s' =>
      mkTensor (rev s')
        (fun idx => sqrt (sum_n d (fun k => Rsqr (get a (idx ++ [k])))))
  end.

(** ** The kernel *)

Section Kernel.

(** Priors are objects of the surrounding library, opaque here. *)
Variable Prior : Type.

(** Modelled from the spec: the state the base class [Kernel] (file
    kernel.py) and the parameter store keep for a kernel object: the
    capability flag, the active dimensions, and the parameters and priors
    recorded under their names. *)
Record Kernel : Type := mkKernel {
  has_lengthscale : bool;
  active_dims : option (list nat);
  parameters : list (string * tensor);
  priors : list (string * Prior)
}.

(** Modelled from the spec: [Kernel.__init__], which keeps the flag and
    the active dimensions and starts with no parameter. *)
Definition Kernel__init__ (has_ls : bool) (dims : option (list nat)) : Kernel :=
  mkKernel has_ls dims [] [].

(** Modelled from the spec: [register_parameter] of the parameter store
    ([register(name, initial_value, prior)]): the value is recorded under
    its name, and so is the prior when one is given. *)
Definition register_parameter (name : string) (parameter : tensor)
    (prior : option Prior) (self : Kernel) : Kernel :=
  mkKernel (has_lengthscale self) (active_dims self)
    (parameters self ++ [(name, parameter)])
    (match prior with
     | Some p => priors self ++ [(name, p)]
     | None => priors self
     end).

(** Modelled from the spec: reading a registered parameter by its name
    ([read(handle)]); an unknown name is an AttributeError. *)
Fixpoint read_parameter (name : string) (ps : list (string * tensor)) : option tensor :=
  match ps with
  | [] => None
  | (n, t) :: ps' => if String.eqb n name then Some t else read_parameter name ps'
  end.

(** A [CosineKernel] object: the base class's state and [eps]. *)
Record CosineKernel : Type := mkCosineKernel {
  base : Kernel;
  eps : R
}.

(** [CosineKernel.__init__]. *)
Definition __init__ (dims : option (list nat)) (batch_size : nat)
    (log_period_length_prior : option Prior) (e : R) : CosineKernel :=
  let self := Kernel__init__ false dims in
  let self :=
    register_parameter "log_period_length"
      (zeros [batch_size; 1%nat; 1%nat]) log_period_length_prior self in
  mkCosineKernel self e.

(** The default values of the constructor's arguments. *)
Definition default_batch_size : nat := 1.
Definition default_eps : R := 1e-6.

(** [self.log_period_length]. *)
Definition log_period_length (self : CosineKernel) : option tensor :=
  read_parameter "log_period_length" (parameters (base self)).

(** The property [period_length]. *)
Definition period_length (self : CosineKernel) : option tensor :=
  l <- log_period_length self ;;
  Some (clamp (texp l) (eps self) 1e5).

(** [preprocess_data]. *)
Definition preprocess_data (self : CosineKernel) (x1 x2 : tensor)
    : option (tensor * tensor) :=
  p <- period_length self ;;
  y1 <- div x1 p ;;
  y2 <- div x2 p ;;
  Some (y1, y2).

(** The local [diff] of [forward]: the pairwise distances. *)
Definition forward_diff (x1 x2 : tensor) : option tensor :=
  a <- unsqueeze 2 x1 ;;
  b <- unsqueeze 1 x2 ;;
  d <- sub a b ;;
  Some (norm2_last d).

(** [forward]. *)
Definition forward (x1 x2 : tensor) : option tensor :=
  diff <- forward_diff x1 x2 ;;
  Some (tcos (mul diff PI)).

(** The composed evaluation: [preprocess_data], then [forward]. *)
Definition evaluate (self : CosineKernel) (x1 x2 : tensor) : option tensor :=
  '(y1, y2) <- preprocess_data self x1 x2 ;;
  forward y1 y2.

(** The scaled distances the composed evaluation goes through. *)
Definition evaluate_diff (self : CosineKernel) (x1 x2 : tensor) : option tensor :=
  '(y1, y2) <- preprocess_data self x1 x2 ;;
  forward_diff y1 y2.

End Kernel.

Arguments mkKernel {Prior}.
Arguments mkCosineKernel {Prior}.
Arguments has_lengthscale {Prior}.
Arguments active_dims {Prior}.
Arguments parameters {Prior}.
Arguments priors {Prior}.
Arguments base {Prior}.
Arguments eps {Prior}.
Arguments __init__ {Prior}.
Arguments log_period_length {Prior}.
Arguments period_length {Prior}.
Arguments preprocess_data {Prior}.
Arguments evaluate {Prior}.
Arguments evaluate_diff {Prior}.

(** The entry of a [(batch_size, 1, 1)] parameter that broadcasting pairs
    with batch element [beta]. *)
Definition batch_entry (batch_size beta : nat) : nat :=
  if (batch_size =? 1)%nat then 0%nat else beta.

(** Point [i] of batch element [beta] of a [(b, n, d)] tensor, and point
    [i] of an [(n, d)] tensor, as maps from the coordinate. *)
Definition point3 (x : tensor) (beta i : nat) : nat -> R :=
  fun c => get x [beta; i; c].
Definition point2 (x : tensor) (i : nat) : nat -> R :=
  fun c => get x [i; c].

(** The Euclidean distance of two points of [d] coordinates. *)
Definition dist (d : nat) (u v : nat -> R) : R :=
  sqrt (sum_n d (fun c => Rsqr (u c - v c))).

(** The kernel keeps its parameter with the shape the constructor gave
    it. *)
Definition batch_kernel {Prior : Type} (batch_size : nat)
    (self : CosineKernel Prior) : Prop :=
  exists l, log_period_length self = Some l /\
            shape l = [batch_size; 1%nat; 1%nat].

(** The inputs the kernel is called with: two batches [(b, n1, d)] and
    [(b, n2, d)], where the parameter's [batch_size] is [b] or 1, or two
    unbatched inputs [(n1, d)] and [(n2, d)]. *)
Definition valid_inputs (batch_size : nat) (x1 x2 : tensor) : Prop :=
  (exists b n1 n2 d, (batch_size = b \/ batch_size = 1%nat) /\
     shape x1 = [b; n1; d] /\ shape x2 = [b; n2; d]) \/
  (exists n1 n2 d, shape x1 = [n1; d] /\ shape x2 = [n2; d]).

(** [t[beta]]: one element along the first axis, which disappears. *)
Definition select0 (beta : nat) (t : tensor) : option tensor :=
  match shape t with
  | [] => None
  | n :: s =>
      if (beta <? n)%nat
      then Some (mkTensor s (fun idx => get t (beta :: idx)))
      else None
  end.

(** [t[start:stop]]: a slice of the first axis, which stays; the bounds
    are cut to the size of the axis as Python does. *)
Definition slice0 (start stop : nat) (t : tensor) : option tensor :=
  match shape t with
  | [] => None
  | n :: s =>
      Some (mkTensor ((Nat.min stop n - Nat.min start n)%nat :: s)
              (fun idx => match idx with
                          | i :: idx' => get t ((start + i)%nat :: idx')
                          | [] => 0
                          end))
  end.

(** Assigning a new value to a registered parameter, as an optimizer
    step does. *)
Fixpoint write_parameter (name : string) (v : tensor)
    (ps : list (string * tensor)) : list (string * tensor) :=
  match ps with
  | [] => []
  | (n, t) :: ps' =>
      if String.eqb n name then (n, v) :: ps'
      else (n, t) :: write_parameter name v ps'
  end.

Definition set_log_period_length {Prior : Type} (v : tensor)
    (self : CosineKernel Prior) : CosineKernel Prior :=
  mkCosineKernel
    (mkKernel (has_lengthscale (base self)) (active_dims (base self))
       (write_parameter "log_period_length" v (parameters (base self)))
       (priors (base self)))
    (eps self).

(** The kernel of one batch element: the same kernel with the slice
    [log_period_length[beta:beta+1]] as its parameter. *)
Definition kernel_slice {Prior : Type} (beta : nat)
    (self : CosineKernel Prior) : option (CosineKernel Prior) :=
  l <- log_period_length self ;;
  l' <- slice0 beta (S beta) l ;;
  Some (set_log_period_length l' self).

(** ** Sample objects *)

(** [CosineKernel()], the kernel with all arguments at their defaults. *)
Definition default_kernel : CosineKernel unit :=
  __init__ None default_batch_size None default_eps.

(** [CosineKernel(batch_size=2)]. *)
Definition batch2_kernel : CosineKernel unit :=
  __init__ None 2 None default_eps.

(** [CosineKernel(eps=2e5)]. *)
Definition large_eps_kernel : CosineKernel unit :=
  __init__ None default_batch_size None 2e5.

(** A default kernel whose parameter has moved to [log 2], so that its
    period length is 2. *)
Definition period2_kernel : CosineKernel unit :=
  set_log_period_length (full [1; 1; 1]%nat (ln 2)) default_kernel.

(** The points (0,0) and (1,0), unbatched and as a batch of one. *)
Definition two_points : tensor := tensor2 [[0; 0]; [1; 0]].
Definition two_points_batch : tensor := tensor3 [[[0; 0]; [1; 0]]].

(** A batch of two point sets, and a shift vector. *)
Definition two_batches : tensor :=
  tensor3 [[[0; 0]; [1; 0]]; [[0; 1]; [2; 0]]].
Definition shift : tensor := tensor1 [3; 4].

(** The points (0,0) and (2,0) as a batch of one. *)
Definition far_points_batch : tensor := tensor3 [[[0; 0]; [2; 0]]].

(** A batch that differs from [two_batches] in batch element 0 only. *)
Definition two_batches_alt : tensor :=
  tensor3 [[[5; 5]; [7; 7]]; [[0; 1]; [2; 0]]].

(** ** Sums and norms *)

Lemma sum_n_ext (n : nat) (f g : nat -> R) :
  (forall k, (k < n)%nat -> f k = g k) -> sum_n n f = sum_n n g.
Proof.
  induction n as [|n IH]; intros H; simpl; [reflexivity|].
  rewrite IH by (intros k Hk; apply H; lia).
  rewrite (H n) by lia. reflexivity.
Qed.

Lemma sum_n_scal (n : nat) (f : nat -> R) (a : R) :
  sum_n n (fun k => f k * a) = sum_n n f * a.
Proof.
  induction n as [|n IH]; simpl; [lra|]. rewrite IH. lra.
Qed.

Lemma sum_n_nonneg (n : nat) (f : nat -> R) :
  (forall k, 0 <= f k) -> 0 <= sum_n n f.
Proof.
  intros H. induction n as [|n IH]; simpl; [lra|].
  specialize (H n). lra.
Qed.

Lemma sum_n_zero (n : nat) (f : nat -> R) :
  (forall k, (k < n)%nat -> f k = 0) -> sum_n n f = 0.
Proof.
  induction n as [|n IH]; intros H; simpl; [reflexivity|].
  rewrite IH by (intros k Hk; apply H; lia).
  rewrite (H n) by lia. lra.
Qed.

Lemma dist_sym (d : nat) (u v : nat -> R) : dist d u v = dist d v u.
Proof.
  unfold dist. f_equal. apply sum_n_ext. intros k _.
  rewrite <- Rsqr_neg_minus. reflexivity.
Qed.

Lemma dist_refl (d : nat) (u : nat -> R) : dist d u u = 0.
Proof.
  unfold dist. rewrite sum_n_zero; [apply sqrt_0|].
  intros k _. unfold Rminus. rewrite Rplus_opp_r. apply Rsqr_0.
Qed.

(** Dividing both points by [p > 0] divides their distance by [p]. *)
Lemma dist_div (d : nat) (u v : nat -> R) (p : R) :
  0 < p ->
  dist d (fun c => u c / p) (fun c => v c / p) = dist d u v / p.
Proof.
  intros Hp. unfold dist.
  rewrite (sum_n_ext d _ (fun c => Rsqr (u c - v c) * Rsqr (/ p))).
  - rewrite sum_n_scal.
    rewrite sqrt_mult_alt by (apply sum_n_nonneg; intros k; apply Rle_0_sqr).
    rewrite sqrt_Rsqr; [reflexivity|].
    left. apply Rinv_0_lt_compat. exact Hp.
  - intros k _. rewrite <- Rsqr_mult. f_equal. unfold Rdiv. ring.
Qed.

(** ** The clamp *)

Lemma clamp1_bounds (lo hi x : R) :
  lo <= hi -> lo <= clamp1 lo hi x <= hi.
Proof.
  intros H. unfold clamp1, Rmin, Rmax.
  destruct (Rle_dec x lo); destruct (Rle_dec _ hi); lra.
Qed.

Lemma clamp1_pos (lo hi x : R) : 0 < x -> 0 < hi -> 0 < clamp1 lo hi x.
Proof.
  intros Hx Hhi. unfold clamp1, Rmin, Rmax.
  destruct (Rle_dec x lo); destruct (Rle_dec _ hi); lra.
Qed.

Lemma clamp1_inside (lo hi x : R) : lo <= x <= hi -> clamp1 lo hi x = x.
Proof.
  intros H. unfold clamp1, Rmin, Rmax.
  destruct (Rle_dec x lo); destruct (Rle_dec _ hi); lra.
Qed.

(** With ordered bounds the two ways of writing the clamp agree. *)
Lemma clamp1_cases_eq (lo hi x : R) :
  lo <= hi -> clamp1_cases lo hi x = clamp1 lo hi x.
Proof.
  intros H. unfold clamp1_cases, clamp1, Rmin, Rmax.
  destruct (Rlt_dec x lo); [|destruct (Rlt_dec hi x)];
    destruct (Rle_dec x lo); destruct (Rle_dec _ hi); lra.
Qed.

(** ** Broadcasting of one axis *)

Lemma bdim_refl (a : nat) : bdim a a = Some a.
Proof. unfold bdim. rewrite Nat.eqb_refl. reflexivity. Qed.

Lemma bdim_1_r (a : nat) : bdim a 1 = Some a.
Proof.
  unfold bdim. destruct (Nat.eqb_spec a 1); [subst; reflexivity|reflexivity].
Qed.

Lemma bdim_1_l (a : nat) : bdim 1 a = Some a.
Proof.
  unfold bdim. destruct (Nat.eqb_spec 1 a); [subst; reflexivity|reflexivity].
Qed.

Lemma bdim_batch (b bs : nat) : bs = b \/ bs = 1%nat -> bdim b bs = Some b.
Proof. intros [->| ->]; [apply bdim_refl|apply bdim_1_r]. Qed.

(** An index inside an axis is not moved by the size-1 rule. *)
Lemma bsel_lt (a i : nat) :
  (i < a)%nat -> (if (a =? 1)%nat then 0%nat else i) = i.
Proof. intros H. destruct (Nat.eqb_spec a 1); lia. Qed.

Lemma batch_entry_eq (b beta : nat) :
  (beta < b)%nat -> batch_entry b beta = beta.
Proof. apply bsel_lt. Qed.

Lemma batch_entry_1 (beta : nat) : batch_entry 1 beta = 0%nat.
Proof. reflexivity. Qed.

(** ** The tensor operations at the shapes of the kernel *)

(** A batch [(b, n, d)] divided by a parameter [(batch_size, 1, 1)]. *)
Lemma div_batch3 (x p : tensor) (b n d bs : nat) :
  shape x = [b; n; d] -> shape p = [bs; 1%nat; 1%nat] ->
  bs = b \/ bs = 1%nat ->
  exists y, div x p = Some y /\ shape y = [b; n; d] /\
    forall beta i c, (beta < b)%nat -> (i < n)%nat -> (c < d)%nat ->
      get y [beta; i; c] = get x [beta; i; c] / get p [batch_entry bs beta; 0%nat; 0%nat].
Proof.
  intros Hx Hp Hbs. unfold div, map2, broadcast_shapes.
  rewrite Hx, Hp. cbn [rev app broadcast_rev].
  rewrite !bdim_1_r, (bdim_batch _ _ Hbs). cbn [bind option_map rev app].
  eexists. split; [reflexivity|]. split; [reflexivity|].
  intros beta i c Hb Hi Hc. cbn [get]. unfold bindex.
  cbn [rev app bindex_rev]. rewrite !bsel_lt by assumption.
  reflexivity.
Qed.

(** An unbatched [(n, d)] input divided by the parameter: broadcasting
    gives the result the parameter's leading axis. *)
Lemma div_batch2 (x p : tensor) (n d bs : nat) :
  shape x = [n; d] -> shape p = [bs; 1%nat; 1%nat] ->
  exists y, div x p = Some y /\ shape y = [bs; n; d] /\
    forall beta i c, (i < n)%nat -> (c < d)%nat ->
      get y [beta; i; c] = get x [i; c] / get p [batch_entry bs beta; 0%nat; 0%nat].
Proof.
  intros Hx Hp. unfold div, map2, broadcast_shapes.
  rewrite Hx, Hp. cbn [rev app broadcast_rev].
  rewrite !bdim_1_r. cbn [bind option_map rev app broadcast_rev].
  eexists. split; [reflexivity|]. split; [reflexivity|].
  intros beta i c Hi Hc. cbn [get]. unfold bindex.
  cbn [rev app bindex_rev]. rewrite !bsel_lt by assumption.
  reflexivity.
Qed.

(** The pairwise distances of two batches with the same batch size and
    dimension. *)
Lemma forward_diff_batch (y1 y2 : tensor) (b n1 n2 d : nat) :
  shape y1 = [b; n1; d] -> shape y2 = [b; n2; d] ->
  exists t, forward_diff y1 y2 = Some t /\ shape t = [b; n1; n2] /\
    forall beta i j, (beta < b)%nat -> (i < n1)%nat -> (j < n2)%nat ->
      get t [beta; i; j] = dist d (point3 y1 beta i) (point3 y2 beta j).
Proof.
  intros H1 H2. unfold forward_diff, unsqueeze, ndimension.
  rewrite H1, H2. cbn [length Nat.leb bind firstn skipn app].
  unfold sub, map2, broadcast_shapes. cbn [shape rev app broadcast_rev].
  rewrite !bdim_refl, bdim_1_r, bdim_1_l. cbn [bind option_map rev app].
  eexists. split; [reflexivity|]. unfold norm2_last. cbn [shape rev app].
  split; [reflexivity|].
  intros beta i j Hb Hi Hj. cbn [get]. unfold dist. f_equal.
  apply sum_n_ext. intros k Hk. unfold bindex.
  cbn [rev app bindex_rev firstn skipn Nat.eqb].
  rewrite !bsel_lt by assumption. reflexivity.
Qed.

Lemma forward_batch (y1 y2 : tensor) (b n1 n2 d : nat) :
  shape y1 = [b; n1; d] -> shape y2 = [b; n2; d] ->
  exists r, forward y1 y2 = Some r /\ shape r = [b; n1; n2] /\
    forall beta i j, (beta < b)%nat -> (i < n1)%nat -> (j < n2)%nat ->
      get r [beta; i; j] = cos (dist d (point3 y1 beta i) (point3 y2 beta j) * PI).
Proof.
  intros H1 H2. unfold forward.
  destruct (forward_diff_batch y1 y2 b n1 n2 d H1 H2) as (t & -> & Hs & Hg).
  cbn [bind]. eexists. split; [reflexivity|]. split; [exact Hs|].
  intros beta i j Hb Hi Hj. cbn [tcos mul map1 get].
  rewrite Hg by assumption. reflexivity.
Qed.

Lemma dist_ext (d : nat) (u u' v v' : nat -> R) :
  (forall c, (c < d)%nat -> u c = u' c) ->
  (forall c, (c < d)%nat -> v c = v' c) ->
  dist d u v = dist d u' v'.
Proof.
  intros Hu Hv. unfold dist. f_equal. apply sum_n_ext.
  intros c Hc. rewrite Hu, Hv by assumption. reflexivity.
Qed.

(** ** The period length *)

Section Period.

Context {Prior : Type}.
Implicit Types self : CosineKernel Prior.

Lemma period_length_entries self (p : tensor) :
  period_length self = Some p ->
  exists l, log_period_length self = Some l /\ shape p = shape l /\
    forall idx, get p idx = clamp1 (eps self) 1e5 (exp (get l idx)).
Proof.
  unfold period_length. destruct (log_period_length self) as [l|]; [|discriminate].
  cbn [bind]. intros [= <-]. exists l. split; [reflexivity|].
  split; reflexivity.
Qed.

Lemma period_length_pos self (p : tensor) (idx : list nat) :
  period_length self = Some p -> 0 < get p idx.
Proof.
  intros H. destruct (period_length_entries _ _ H) as (l & _ & _ & Hg).
  rewrite Hg. apply clamp1_pos; [apply exp_pos|lra].
Qed.

Lemma batch_kernel_period (bs : nat) self :
  batch_kernel bs self ->
  exists p, period_length self = Some p /\ shape p = [bs; 1%nat; 1%nat].
Proof.
  intros (l & Hl & Hs). unfold period_length. rewrite Hl. cbn [bind].
  eexists. split; [reflexivity|]. exact Hs.
Qed.

Lemma init_batch_kernel (dims : option (list nat)) (bs : nat)
    (prior : option Prior) (e : R) :
  batch_kernel bs (__init__ dims bs prior e).
Proof.
  exists (zeros [bs; 1%nat; 1%nat]). split; reflexivity.
Qed.

(** ** The composed evaluation on batches *)

Lemma preprocess_batch self (p x1 x2 : tensor) (bs b n1 n2 d : nat) :
  period_length self = Some p -> shape p = [bs; 1%nat; 1%nat] ->
  bs = b \/ bs = 1%nat ->
  shape x1 = [b; n1; d] -> shape x2 = [b; n2; d] ->
  exists y1 y2, preprocess_data self x1 x2 = Some (y1, y2) /\
    shape y1 = [b; n1; d] /\ shape y2 = [b; n2; d] /\
    (forall beta i c, (beta < b)%nat -> (i < n1)%nat -> (c < d)%nat ->
       point3 y1 beta i c
       = point3 x1 beta i c / get p [batch_entry bs beta; 0%nat; 0%nat]) /\
    (forall beta j c, (beta < b)%nat -> (j < n2)%nat -> (c < d)%nat ->
       point3 y2 beta j c
       = point3 x2 beta j c / get p [batch_entry bs beta; 0%nat; 0%nat]).
Proof.
  intros Hp Hs Hbs H1 H2. unfold preprocess_data. rewrite Hp. cbn [bind].
  destruct (div_batch3 x1 p b n1 d bs H1 Hs Hbs) as (y1 & -> & Hs1 & Hg1).
  destruct (div_batch3 x2 p b n2 d bs H2 Hs Hbs) as (y2 & -> & Hs2 & Hg2).
  cbn [bind]. exists y1, y2. repeat split; assumption.
Qed.

Lemma preprocess_unbatched self (p x1 x2 : tensor) (bs n1 n2 d : nat) :
  period_length self = Some p -> shape p = [bs; 1%nat; 1%nat] ->
  shape x1 = [n1; d] -> shape x2 = [n2; d] ->
  exists y1 y2, preprocess_data self x1 x2 = Some (y1, y2) /\
    shape y1 = [bs; n1; d] /\ shape y2 = [bs; n2; d] /\
    (forall beta i c, (i < n1)%nat -> (c < d)%nat ->
       point3 y1 beta i c
       = point2 x1 i c / get p [batch_entry bs beta; 0%nat; 0%nat]) /\
    (forall beta j c, (j < n2)%nat -> (c < d)%nat ->
       point3 y2 beta j c
       = point2 x2 j c / get p [batch_entry bs beta; 0%nat; 0%nat]).
Proof.
  intros Hp Hs H1 H2. unfold preprocess_data. rewrite Hp. cbn [bind].
  destruct (div_batch2 x1 p n1 d bs H1 Hs) as (y1 & -> & Hs1 & Hg1).
  destruct (div_batch2 x2 p n2 d bs H2 Hs) as (y2 & -> & Hs2 & Hg2).
  cbn [bind]. exists y1, y2. repeat split; assumption.
Qed.

(** The scaled distances and the result of the composed evaluation on
    two batches, entry by entry. *)
Lemma evaluate_batch self (p x1 x2 : tensor) (bs b n1 n2 d : nat) :
  period_length self = Some p -> shape p = [bs; 1%nat; 1%nat] ->
  bs = b \/ bs = 1%nat ->
  shape x1 = [b; n1; d] -> shape x2 = [b; n2; d] ->
  exists t r, evaluate_diff self x1 x2 = Some t /\ evaluate self x1 x2 = Some r /\
    shape t = [b; n1; n2] /\ shape r = [b; n1; n2] /\
    forall beta i j, (beta < b)%nat -> (i < n1)%nat -> (j < n2)%nat ->
      get t [beta; i; j]
      = dist d (point3 x1 beta i) (point3 x2 beta j)
        / get p [batch_entry bs beta; 0%nat; 0%nat] /\
      get r [beta; i; j] = cos (get t [beta; i; j] * PI).
Proof.
  intros Hp Hs Hbs H1 H2.
  destruct (preprocess_batch self p x1 x2 bs b n1 n2 d Hp Hs Hbs H1 H2)
    as (y1 & y2 & Hpre & Hs1 & Hs2 & Hg1 & Hg2).
  destruct (forward_diff_batch y1 y2 b n1 n2 d Hs1 Hs2) as (t & Ht & Hst & Hgt).
  exists t, (tcos (mul t PI)).
  unfold evaluate_diff, evaluate, forward. rewrite Hpre. cbn [bind].
  rewrite Ht. cbn [bind]. repeat split; try assumption.
  rewrite Hgt by assumption.
  rewrite <- dist_div by (eapply period_length_pos; eassumption).
  apply dist_ext; intros c Hc; [apply Hg1|apply Hg2]; assumption.
Qed.

(** The same for two unbatched inputs. *)
Lemma evaluate_unbatched self (p x1 x2 : tensor) (bs n1 n2 d : nat) :
  period_length self = Some p -> shape p = [bs; 1%nat; 1%nat] ->
  shape x1 = [n1; d] -> shape x2 = [n2; d] ->
  exists t r, evaluate_diff self x1 x2 = Some t /\ evaluate self x1 x2 = Some r /\
    shape t = [bs; n1; n2] /\ shape r = [bs; n1; n2] /\
    forall beta i j, (beta < bs)%nat -> (i < n1)%nat -> (j < n2)%nat ->
      get t [beta; i; j]
      = dist d (point2 x1 i) (point2 x2 j)
        / get p [batch_entry bs beta; 0%nat; 0%nat] /\
      get r [beta; i; j] = cos (get t [beta; i; j] * PI).
Proof.
  intros Hp Hs H1 H2.
  destruct (preprocess_unbatched self p x1 x2 bs n1 n2 d Hp Hs H1 H2)
    as (y1 & y2 & Hpre & Hs1 & Hs2 & Hg1 & Hg2).
  destruct (forward_diff_batch y1 y2 bs n1 n2 d Hs1 Hs2) as (t & Ht & Hst & Hgt).
  exists t, (tcos (mul t PI)).
  unfold evaluate_diff, evaluate, forward. rewrite Hpre. cbn [bind].
  rewrite Ht. cbn [bind]. repeat split; try assumption.
  rewrite Hgt by assumption.
  rewrite <- dist_div by (eapply period_length_pos; eassumption).
  apply dist_ext; intros c Hc; [apply Hg1|apply Hg2]; assumption.
Qed.

End Period.

(** ** Shape of the result of [evaluate] *)

Lemma evaluate_is_cos {Prior : Type} (self : CosineKernel Prior)
    (x1 x2 r : tensor) :
  evaluate self x1 x2 = Some r -> exists t, r = tcos (mul t PI).
Proof.
  unfold evaluate, forward.
  destruct (preprocess_data self x1 x2) as [[y1 y2]|]; [|discriminate].
  cbn [bind]. destruct (forward_diff y1 y2) as [t|]; [|discriminate].
  cbn [bind]. intros [= <-]. exists t. reflexivity.
Qed.

Lemma evaluate_valid {Prior : Type} (self : CosineKernel Prior)
    (p x1 x2 : tensor) (bs : nat) :
  period_length self = Some p -> shape p = [bs; 1%nat; 1%nat] ->
  valid_inputs bs x1 x2 ->
  exists r, evaluate self x1 x2 = Some r.
Proof.
  intros Hp Hs [(b & n1 & n2 & d & Hbs & H1 & H2)|(n1 & n2 & d & H1 & H2)].
  - destruct (evaluate_batch self p x1 x2 bs b n1 n2 d Hp Hs Hbs H1 H2)
      as (t & r & _ & Hr & _).
    exists r. exact Hr.
  - destruct (evaluate_unbatched self p x1 x2 bs n1 n2 d Hp Hs H1 H2)
      as (t & r & _ & Hr & _).
    exists r. exact Hr.
Qed.

Lemma in_range3 (a b c : nat) (idx : list nat) :
  in_range [a; b; c] idx ->
  exists i j k, idx = [i; j; k] /\ (i < a)%nat /\ (j < b)%nat /\ (k < c)%nat.
Proof.
  intros H. inversion H as [|i ? idx1 ? Hi H1]; subst.
  inversion H1 as [|j ? idx2 ? Hj H2]; subst.
  inversion H2 as [|k ? idx3 ? Hk H3]; subst.
  inversion H3; subst. exists i, j, k. auto.
Qed.

(** ** The claims *)

(** C1. For two batches of shapes (b, n1, d) and (b, n2, d),
    [preprocess_data] followed by [forward] returns a tensor of shape
    (b, n1, n2) whose entry (beta, i, j) is the cosine of pi times the
    Euclidean distance of point i of x1 and point j of x2, divided by the
    period length of batch element beta (the entry of the period length
    that broadcasting pairs with beta: entry beta when the parameter has
    one entry for each batch element, entry 0 when it has one entry). *)
Theorem evaluate_cosine_formula {Prior : Type} (self : CosineKernel Prior)
    (p x1 x2 : tensor) (bs b n1 n2 d : nat) :
  period_length self = Some p -> shape p = [bs; 1%nat; 1%nat] ->
  bs = b \/ bs = 1%nat ->
  shape x1 = [b; n1; d] -> shape x2 = [b; n2; d] ->
  exists r, evaluate self x1 x2 = Some r /\ shape r = [b; n1; n2] /\
    forall beta i j, (beta < b)%nat -> (i < n1)%nat -> (j < n2)%nat ->
      get r [beta; i; j]
      = cos (PI * dist d (point3 x1 beta i) (point3 x2 beta j)
             / get p [batch_entry bs beta; 0%nat; 0%nat]).
Proof.
  intros Hp Hs Hbs H1 H2.
  destruct (evaluate_batch self p x1 x2 bs b n1 n2 d Hp Hs Hbs H1 H2)
    as (t & r & _ & Hr & _ & Hsr & Hg).
  exists r. split; [exact Hr|]. split; [exact Hsr|].
  intros beta i j Hb Hi Hj.
  destruct (Hg beta i j Hb Hi Hj) as [Ht ->]. rewrite Ht.
  f_equal. unfold Rdiv. ring.
Qed.

Lemma evaluate_cosine_formula_witness :
  exists r, evaluate default_kernel two_points_batch two_points_batch = Some r /\
    shape r = [1; 2; 2]%nat /\
    forall beta i j, (beta < 1)%nat -> (i < 2)%nat -> (j < 2)%nat ->
      get r [beta; i; j]
      = cos (PI * dist 2 (point3 two_points_batch beta i)
                         (point3 two_points_batch beta j)
             / get (clamp (texp (zeros [1; 1; 1]%nat)) default_eps 1e5)
                 [batch_entry 1 beta; 0%nat; 0%nat]).
Proof.
  apply (evaluate_cosine_formula default_kernel
           (clamp (texp (zeros [1; 1; 1]%nat)) default_eps 1e5)
           two_points_batch two_points_batch 1 1 2 2 2);
    [reflexivity | reflexivity | left; reflexivity | reflexivity | reflexivity].
Defined.

(** C2 as stated fails when [eps] is above the upper bound 1e5: the
    kernel [CosineKernel(eps=2e5)] reads a period length outside
    [[eps, 1e5]], an interval with no element. *)
Lemma period_length_outside_bounds :
  exists p, period_length large_eps_kernel = Some p /\
    ~ (eps large_eps_kernel <= get p [0; 0; 0]%nat <= 1e5).
Proof.
  eexists. split; [reflexivity|].
  cbn [large_eps_kernel __init__ eps]. lra.
Qed.

(** C2, amended. When [eps <= 1e5], for every value of the parameter
    [log_period_length] the property [period_length] is read with
    success, has the parameter's shape, and every entry of it lies in
    [[eps, 1e5]]; with a positive [eps], as the constructor's
    documentation asks for, every entry is therefore strictly
    positive. *)
Theorem period_length_bounds {Prior : Type} (self : CosineKernel Prior)
    (l : tensor) :
  log_period_length self = Some l ->
  eps self <= 1e5 ->
  exists p, period_length self = Some p /\ shape p = shape l /\
    (forall idx, eps self <= get p idx <= 1e5) /\
    (0 < eps self -> forall idx, 0 < get p idx).
Proof.
  intros Hl He. unfold period_length. rewrite Hl. cbn [bind].
  eexists. split; [reflexivity|]. split; [reflexivity|].
  assert (Hb : forall idx,
            eps self <= get (clamp (texp l) (eps self) 1e5) idx <= 1e5).
  { intros idx. cbn [clamp texp map1 get]. apply clamp1_bounds. exact He. }
  split; [exact Hb|].
  intros Hpos idx. destruct (Hb idx) as [Hlo _]. lra.
Qed.

Lemma period_length_bounds_witness :
  exists p, period_length default_kernel = Some p /\
    shape p = [1; 1; 1]%nat /\
    (forall idx, default_eps <= get p idx <= 1e5) /\
    (forall idx, 0 < get p idx).
Proof.
  assert (He : eps default_kernel <= 1e5).
  { cbn [default_kernel __init__ eps]. unfold default_eps. lra. }
  destruct (period_length_bounds default_kernel (zeros [1; 1; 1]%nat)
              eq_refl He)
    as (p & Hp & Hs & Hb & Hpos).
  exists p. split; [exact Hp|]. split; [exact Hs|]. split; [exact Hb|].
  apply Hpos. cbn [default_kernel __init__ eps]. unfold default_eps. lra.
Defined.

(** C3. Evaluating a batch against itself gives a symmetric result:
    entry (beta, i, j) equals entry (beta, j, i). *)
Theorem evaluate_symmetric {Prior : Type} (self : CosineKernel Prior)
    (p x : tensor) (bs b n d : nat) :
  period_length self = Some p -> shape p = [bs; 1%nat; 1%nat] ->
  bs = b \/ bs = 1%nat ->
  shape x = [b; n; d] ->
  exists r, evaluate self x x = Some r /\ shape r = [b; n; n] /\
    forall beta i j, (beta < b)%nat -> (i < n)%nat -> (j < n)%nat ->
      get r [beta; i; j] = get r [beta; j; i].
Proof.
  intros Hp Hs Hbs Hx.
  destruct (evaluate_batch self p x x bs b n n d Hp Hs Hbs Hx Hx)
    as (t & r & _ & Hr & _ & Hsr & Hg).
  exists r. split; [exact Hr|]. split; [exact Hsr|].
  intros beta i j Hb Hi Hj.
  destruct (Hg beta i j Hb Hi Hj) as [Hij ->].
  destruct (Hg beta j i Hb Hj Hi) as [Hji ->].
  rewrite Hij, Hji, dist_sym. reflexivity.
Qed.

Lemma evaluate_symmetric_witness :
  exists r, evaluate default_kernel two_points_batch two_points_batch = Some r /\
    shape r = [1; 2; 2]%nat /\
    forall beta i j, (beta < 1)%nat -> (i < 2)%nat -> (j < 2)%nat ->
      get r [beta; i; j] = get r [beta; j; i].
Proof.
  apply (evaluate_symmetric default_kernel
           (clamp (texp (zeros [1; 1; 1]%nat)) default_eps 1e5)
           two_points_batch 1 1 2 2);
    [reflexivity | reflexivity | left; reflexivity | reflexivity].
Defined.

(** C4. On valid inputs the composed evaluation returns a tensor, and
    every entry of it lies in [[-1, 1]]. *)
Theorem evaluate_entries_bounded {Prior : Type} (self : CosineKernel Prior)
    (p x1 x2 : tensor) (bs : nat) :
  period_length self = Some p -> shape p = [bs; 1%nat; 1%nat] ->
  valid_inputs bs x1 x2 ->
  exists r, evaluate self x1 x2 = Some r /\
    forall idx, -1 <= get r idx <= 1.
Proof.
  intros Hp Hs Hv.
  destruct (evaluate_valid self p x1 x2 bs Hp Hs Hv) as (r & Hr).
  exists r. split; [exact Hr|].
  destruct (evaluate_is_cos self x1 x2 r Hr) as (t & ->).
  intros idx. cbn [tcos mul map1 get]. apply COS_bound.
Qed.

Lemma evaluate_entries_bounded_witness :
  exists r, evaluate default_kernel two_points two_points = Some r /\
    forall idx, -1 <= get r idx <= 1.
Proof.
  apply (evaluate_entries_bounded default_kernel
           (clamp (texp (zeros [1; 1; 1]%nat)) default_eps 1e5)
           two_points two_points 1);
    [reflexivity | reflexivity |].
  right. exists 2%nat, 2%nat, 2%nat. split; reflexivity.
Defined.

(** C5 as stated fails for unbatched inputs: dividing a (2, 2) input by
    the (1, 1, 1) period length broadcasts it to (1, 2, 2), so the
    result of the default kernel on two unbatched inputs has three axes,
    not two. *)
Lemma evaluate_unbatched_shape_not_2d :
  exists r, evaluate default_kernel two_points two_points = Some r /\
    shape r = [1; 2; 2]%nat /\ shape r <> [2; 2]%nat.
Proof.
  destruct (evaluate_unbatched default_kernel
              (clamp (texp (zeros [1; 1; 1]%nat)) default_eps 1e5)
              two_points two_points 1 2 2 2 eq_refl eq_refl eq_refl eq_refl)
    as (t & r & _ & Hr & _ & Hs & _).
  exists r. split; [exact Hr|]. split; [exact Hs|].
  rewrite Hs. discriminate.
Qed.

(** C5, amended. For a kernel whose parameter has shape
    (batch_size, 1, 1): on two batches of shapes (b, n1, d) and
    (b, n2, d), with batch_size equal to b or to 1, the composed
    evaluation returns a tensor of shape (b, n1, n2); on two unbatched
    inputs of shapes (n1, d) and (n2, d) it returns a tensor of shape
    (batch_size, n1, n2), which is (1, n1, n2) for the default
    batch_size. *)
Theorem evaluate_shape {Prior : Type} (self : CosineKernel Prior)
    (p x1 x2 : tensor) (bs : nat) :
  period_length self = Some p -> shape p = [bs; 1%nat; 1%nat] ->
  (forall b n1 n2 d, bs = b \/ bs = 1%nat ->
     shape x1 = [b; n1; d] -> shape x2 = [b; n2; d] ->
     exists r, evaluate self x1 x2 = Some r /\ shape r = [b; n1; n2]) /\
  (forall n1 n2 d,
     shape x1 = [n1; d] -> shape x2 = [n2; d] ->
     exists r, evaluate self x1 x2 = Some r /\ shape r = [bs; n1; n2]).
Proof.
  intros Hp Hs. split.
  - intros b n1 n2 d Hbs H1 H2.
    destruct (evaluate_batch self p x1 x2 bs b n1 n2 d Hp Hs Hbs H1 H2)
      as (t & r & _ & Hr & _ & Hsr & _).
    exists r. split; assumption.
  - intros n1 n2 d H1 H2.
    destruct (evaluate_unbatched self p x1 x2 bs n1 n2 d Hp Hs H1 H2)
      as (t & r & _ & Hr & _ & Hsr & _).
    exists r. split; assumption.
Qed.

Lemma evaluate_shape_witness :
  (exists r, evaluate default_kernel two_batches two_batches = Some r /\
             shape r = [2; 2; 2]%nat) /\
  (exists r, evaluate default_kernel two_points two_points = Some r /\
             shape r = [1; 2; 2]%nat).
Proof.
  split.
  - apply (proj1 (evaluate_shape default_kernel
                    (clamp (texp (zeros [1; 1; 1]%nat)) default_eps 1e5)
                    two_batches two_batches 1 eq_refl eq_refl) 2 2 2 2)%nat;
      [right; reflexivity | reflexivity | reflexivity].
  - apply (proj2 (evaluate_shape default_kernel
                    (clamp (texp (zeros [1; 1; 1]%nat)) default_eps 1e5)
                    two_points two_points 1 eq_refl eq_refl) 2 2 2)%nat;
      reflexivity.
Defined.

(** ** The two sample points *)

Lemma dist_two_points_01 :
  dist 2 (point2 two_points 0) (point2 two_points 1) = 1.
Proof.
  unfold dist, point2, two_points, tensor2. cbn [sum_n get nth].
  replace (0 + Rsqr (0 - 1) + Rsqr (0 - 0)) with 1 by (unfold Rsqr; ring).
  apply sqrt_1.
Qed.

Lemma cos_half_PI : cos (1 / 2 * PI) = 0.
Proof.
  replace (1 / 2 * PI) with (PI / 2) by (unfold Rdiv; ring). apply cos_PI2.
Qed.

Lemma cos_zero_PI : cos (0 * PI) = 1.
Proof. rewrite Rmult_0_l. apply cos_0. Qed.

(** C6. With the points (0,0) and (1,0) as both arguments and a period
    length of 2, the scaled pairwise distances are [[0, 1/2], [1/2, 0]]
    and the output is [[1, 0], [0, 1]]; both are the one batch element
    of a tensor of shape (1, 2, 2). *)
Theorem evaluate_two_points_period_2 {Prior : Type}
    (self : CosineKernel Prior) (p : tensor) :
  period_length self = Some p -> shape p = [1; 1; 1]%nat ->
  get p [0; 0; 0]%nat = 2 ->
  exists t r, evaluate_diff self two_points two_points = Some t /\
    evaluate self two_points two_points = Some r /\
    teq t (tensor3 [[[0; 1 / 2]; [1 / 2; 0]]]) /\
    teq r (tensor3 [[[1; cos (PI / 2)]; [cos (PI / 2); 1]]]) /\
    teq r (tensor3 [[[1; 0]; [0; 1]]]).
Proof.
  intros Hp Hs H2.
  destruct (evaluate_unbatched self p two_points two_points 1 2 2 2
              Hp Hs eq_refl eq_refl) as (t & r & Ht & Hr & Hst & Hsr & Hg).
  assert (Hd : forall i j, (i < 2)%nat -> (j < 2)%nat ->
            get t [0; i; j]%nat
            = nth j (nth i [[0; 1 / 2]; [1 / 2; 0]] []) 0).
  { intros i j Hi Hj.
    destruct (Hg 0%nat i j (Nat.lt_0_succ 0) Hi Hj) as [-> _].
    cbn [batch_entry Nat.eqb]. rewrite H2.
    destruct i as [|[|i]]; [| |lia]; (destruct j as [|[|j]]; [| |lia]);
      cbn [nth];
      rewrite ?dist_refl, ?dist_two_points_01,
              ?(dist_sym _ (point2 two_points 1)), ?dist_two_points_01; lra. }
  assert (Hc : forall i j, (i < 2)%nat -> (j < 2)%nat ->
            get r [0; i; j]%nat
            = nth j (nth i [[1; 0]; [0; 1]] []) 0).
  { intros i j Hi Hj.
    destruct (Hg 0%nat i j (Nat.lt_0_succ 0) Hi Hj) as [_ ->].
    rewrite Hd by assumption.
    destruct i as [|[|i]]; [| |lia]; (destruct j as [|[|j]]; [| |lia]);
      cbn [nth]; auto using cos_half_PI, cos_zero_PI. }
  exists t, r. split; [exact Ht|]. split; [exact Hr|].
  split; [|split]; (split; [assumption|]); intros idx Hin;
    rewrite ?Hst, ?Hsr in Hin;
    apply in_range3 in Hin; destruct Hin as (b & i & j & -> & Hb & Hi & Hj);
    assert (b = 0%nat) by lia; subst b.
  - rewrite Hd by assumption. reflexivity.
  - rewrite Hc by assumption.
    destruct i as [|[|i]]; [| |lia]; (destruct j as [|[|j]]; [| |lia]);
      cbn [tensor3 get nth]; rewrite ?cos_PI2; reflexivity.
  - rewrite Hc by assumption. reflexivity.
Qed.

Lemma period2_kernel_period :
  get (clamp (texp (full [1; 1; 1]%nat (ln 2))) default_eps 1e5) [0; 0; 0]%nat = 2.
Proof.
  cbn [clamp texp map1 full get]. rewrite exp_ln by lra.
  apply clamp1_inside. unfold default_eps. lra.
Qed.

Lemma evaluate_two_points_period_2_witness :
  exists t r, evaluate_diff period2_kernel two_points two_points = Some t /\
    evaluate period2_kernel two_points two_points = Some r /\
    teq t (tensor3 [[[0; 1 / 2]; [1 / 2; 0]]]) /\
    teq r (tensor3 [[[1; cos (PI / 2)]; [cos (PI / 2); 1]]]) /\
    teq r (tensor3 [[[1; 0]; [0; 1]]]).
Proof.
  apply (evaluate_two_points_period_2 period2_kernel
           (clamp (texp (full [1; 1; 1]%nat (ln 2))) default_eps 1e5));
    [reflexivity | reflexivity | exact period2_kernel_period].
Defined.

(** C7. The constructor registers one parameter, named
    log_period_length, of shape (batch_size, 1, 1) with every entry 0;
    when [eps <= 1], the period length read right after construction has
    the same shape and every entry of it is
    clamp(exp(0), eps, 1e5) = 1. *)
Theorem init_period_length {Prior : Type} (dims : option (list nat))
    (batch_size : nat) (prior : option Prior) (e : R) :
  (0 < batch_size)%nat -> e <= 1 ->
  let self := __init__ dims batch_size prior e in
  (exists l, parameters (base self) = [("log_period_length"%string, l)] /\
     log_period_length self = Some l /\
     shape l = [batch_size; 1%nat; 1%nat] /\ forall idx, get l idx = 0) /\
  (exists p, period_length self = Some p /\
     shape p = [batch_size; 1%nat; 1%nat] /\
     forall idx, get p idx = clamp1 e 1e5 (exp 0) /\ get p idx = 1).
Proof.
  intros _ He self. split.
  - exists (zeros [batch_size; 1%nat; 1%nat]).
    repeat split; reflexivity.
  - eexists. split; [reflexivity|]. split; [reflexivity|].
    intros idx. cbn [clamp texp map1 zeros full get]. split; [reflexivity|].
    rewrite exp_0. apply clamp1_inside. subst self. cbn [__init__ eps]. lra.
Qed.

Lemma init_period_length_witness :
  (exists l, parameters (base default_kernel) = [("log_period_length"%string, l)] /\
     log_period_length default_kernel = Some l /\
     shape l = [1; 1; 1]%nat /\ forall idx, get l idx = 0) /\
  (exists p, period_length default_kernel = Some p /\
     shape p = [1; 1; 1]%nat /\
     forall idx, get p idx = clamp1 default_eps 1e5 (exp 0) /\ get p idx = 1).
Proof.
  apply (init_period_length (Prior:=unit) None 1 None default_eps);
    [lia | unfold default_eps; lra].
Defined.



(** ** Shifting the points *)

Lemma dist_translate (d : nat) (u v w : nat -> R) :
  dist d (fun k => u k + w k) (fun k => v k + w k) = dist d u v.
Proof.
  unfold dist. f_equal. apply sum_n_ext. intros k _. f_equal. ring.
Qed.

(** A vector of [d] coordinates added to every point of a batch. *)
Lemma add_vector (x c : tensor) (b n d : nat) :
  shape x = [b; n; d] -> shape c = [d] ->
  exists y, add x c = Some y /\ shape y = [b; n; d] /\
    forall beta i k, (beta < b)%nat -> (i < n)%nat -> (k < d)%nat ->
      get y [beta; i; k] = get x [beta; i; k] + get c [k].
Proof.
  intros Hx Hc. unfold add, map2, broadcast_shapes.
  rewrite Hx, Hc. cbn [rev app broadcast_rev].
  rewrite bdim_refl. cbn [bind option_map rev app broadcast_rev].
  eexists. split; [reflexivity|]. split; [reflexivity|].
  intros beta i k Hb Hi Hk. cbn [get]. unfold bindex.
  cbn [rev app bindex_rev]. rewrite !bsel_lt by assumption.
  reflexivity.
Qed.

(** C10. Adding one vector of d coordinates to every point of both
    batches does not change the result of the composed evaluation. *)
Theorem evaluate_translation_invariant {Prior : Type}
    (self : CosineKernel Prior) (p x1 x2 c : tensor) (bs b n1 n2 d : nat) :
  period_length self = Some p -> shape p = [bs; 1%nat; 1%nat] ->
  bs = b \/ bs = 1%nat ->
  shape x1 = [b; n1; d] -> shape x2 = [b; n2; d] -> shape c = [d] ->
  exists y1 y2 r r', add x1 c = Some y1 /\ add x2 c = Some y2 /\
    evaluate self x1 x2 = Some r /\ evaluate self y1 y2 = Some r' /\
    teq r' r.
Proof.
  intros Hp Hs Hbs H1 H2 Hc.
  destruct (add_vector x1 c b n1 d H1 Hc) as (y1 & Ha1 & Hs1 & Hg1).
  destruct (add_vector x2 c b n2 d H2 Hc) as (y2 & Ha2 & Hs2 & Hg2).
  destruct (evaluate_batch self p x1 x2 bs b n1 n2 d Hp Hs Hbs H1 H2)
    as (t & r & _ & Hr & _ & Hsr & Hg).
  destruct (evaluate_batch self p y1 y2 bs b n1 n2 d Hp Hs Hbs Hs1 Hs2)
    as (t' & r' & _ & Hr' & _ & Hsr' & Hg').
  exists y1, y2, r, r'. repeat (split; [assumption|]).
  split; [congruence|].
  intros idx Hin. rewrite Hsr' in Hin.
  apply in_range3 in Hin. destruct Hin as (beta & i & j & -> & Hb & Hi & Hj).
  destruct (Hg beta i j Hb Hi Hj) as [Ht ->].
  destruct (Hg' beta i j Hb Hi Hj) as [Ht' ->].
  rewrite Ht, Ht'. do 3 f_equal.
  rewrite <- (dist_translate d (point3 x1 beta i) (point3 x2 beta j)
                (fun k => get c [k])).
  apply dist_ext; intros k Hk; unfold point3; [apply Hg1|apply Hg2]; assumption.
Qed.

Lemma evaluate_translation_invariant_witness :
  exists y1 y2 r r', add two_batches shift = Some y1 /\
    add two_batches shift = Some y2 /\
    evaluate batch2_kernel two_batches two_batches = Some r /\
    evaluate batch2_kernel y1 y2 = Some r' /\
    teq r' r.
Proof.
  apply (evaluate_translation_invariant batch2_kernel
           (clamp (texp (zeros [2; 1; 1]%nat)) default_eps 1e5)
           two_batches two_batches shift 2 2 2 2 2);
    [reflexivity | reflexivity | left; reflexivity
     | reflexivity | reflexivity | reflexivity].
Defined.

(** ** One batch element alone *)

Lemma read_write_parameter (name : string) (v t : tensor)
    (ps : list (string * tensor)) :
  read_parameter name ps = Some t ->
  read_parameter name (write_parameter name v ps) = Some v.
Proof.
  induction ps as [|[n u] ps IH]; cbn [read_parameter write_parameter];
    [discriminate|].
  destruct (String.eqb n name) eqn:E; cbn [read_parameter]; rewrite E.
  - reflexivity.
  - exact IH.
Qed.

Lemma period_length_of_log {Prior : Type} (self : CosineKernel Prior)
    (l : tensor) :
  log_period_length self = Some l ->
  period_length self = Some (clamp (texp l) (eps self) 1e5).
Proof. intros Hl. unfold period_length. rewrite Hl. reflexivity. Qed.

(** The kernel of batch element [beta]: its parameter is the one entry
    [beta] of the parameter, and its [eps] is unchanged. *)
Lemma kernel_slice_parameter {Prior : Type} (self : CosineKernel Prior)
    (l : tensor) (bs beta : nat) :
  log_period_length self = Some l -> shape l = [bs; 1%nat; 1%nat] ->
  (beta < bs)%nat ->
  exists k l', kernel_slice beta self = Some k /\
    log_period_length k = Some l' /\ eps k = eps self /\
    shape l' = [1; 1; 1]%nat /\
    get l' [0; 0; 0]%nat = get l [beta; 0; 0]%nat.
Proof.
  intros Hl Hs Hb. unfold kernel_slice. rewrite Hl. cbn [bind].
  unfold slice0. rewrite Hs. cbn [bind]. eexists. eexists. split; [reflexivity|].
  split; [|split; [reflexivity|split]].
  - unfold log_period_length in *. cbn [set_log_period_length base parameters].
    eapply read_write_parameter. exact Hl.
  - cbn [shape]. f_equal. lia.
  - cbn [get]. rewrite Nat.add_0_r. reflexivity.
Qed.

Lemma select0_batch (x : tensor) (b n d beta : nat) :
  shape x = [b; n; d] -> (beta < b)%nat ->
  exists y, select0 beta x = Some y /\ shape y = [n; d] /\
    forall i, point2 y i = point3 x beta i.
Proof.
  intros Hx Hb. unfold select0. rewrite Hx.
  apply Nat.ltb_lt in Hb. rewrite Hb.
  eexists. split; [reflexivity|]. split; reflexivity.
Qed.

Lemma batch_entry_lt (bs b beta : nat) :
  bs = b \/ bs = 1%nat -> (beta < b)%nat -> (batch_entry bs beta < bs)%nat.
Proof.
  intros Hbs Hb. unfold batch_entry.
  destruct (Nat.eqb_spec bs 1); lia.
Qed.

(** C8. Batch element beta of a batched evaluation is the result of
    evaluating the pair (x1[beta], x2[beta]) alone with the kernel that
    keeps only the parameter entry of that batch element; and it is the
    same for any other kernel and batches that agree with these on batch
    element beta, whatever they hold elsewhere. *)
Theorem batch_independence {Prior : Type} (self : CosineKernel Prior)
    (l x1 x2 : tensor) (bs b n1 n2 d beta : nat) :
  log_period_length self = Some l -> shape l = [bs; 1%nat; 1%nat] ->
  bs = b \/ bs = 1%nat ->
  shape x1 = [b; n1; d] -> shape x2 = [b; n2; d] ->
  (beta < b)%nat ->
  exists r, evaluate self x1 x2 = Some r /\
    (exists k y1 y2 r',
       kernel_slice (batch_entry bs beta) self = Some k /\
       select0 beta x1 = Some y1 /\ select0 beta x2 = Some y2 /\
       evaluate k y1 y2 = Some r' /\ shape r' = [1%nat; n1; n2] /\
       forall i j, (i < n1)%nat -> (j < n2)%nat ->
         get r' [0%nat; i; j] = get r [beta; i; j]) /\
    (forall (other : CosineKernel Prior) (l' x1' x2' r' : tensor),
       log_period_length other = Some l' -> shape l' = [bs; 1%nat; 1%nat] ->
       eps other = eps self ->
       shape x1' = [b; n1; d] -> shape x2' = [b; n2; d] ->
       get l' [batch_entry bs beta; 0%nat; 0%nat]
       = get l [batch_entry bs beta; 0%nat; 0%nat] ->
       (forall i c, (i < n1)%nat -> (c < d)%nat ->
          get x1' [beta; i; c] = get x1 [beta; i; c]) ->
       (forall j c, (j < n2)%nat -> (c < d)%nat ->
          get x2' [beta; j; c] = get x2 [beta; j; c]) ->
       evaluate other x1' x2' = Some r' ->
       forall i j, (i < n1)%nat -> (j < n2)%nat ->
         get r' [beta; i; j] = get r [beta; i; j]).
Proof.
  intros Hl Hs Hbs H1 H2 Hb.
  pose proof (period_length_of_log self l Hl) as Hp.
  destruct (evaluate_batch self _ x1 x2 bs b n1 n2 d Hp Hs Hbs H1 H2)
    as (t & r & _ & Hr & _ & Hsr & Hg).
  exists r. split; [exact Hr|]. split.
  - destruct (kernel_slice_parameter self l bs (batch_entry bs beta) Hl Hs
                (batch_entry_lt bs b beta Hbs Hb))
      as (k & lk & Hk & Hlk & Hek & Hslk & Hglk).
    destruct (select0_batch x1 b n1 d beta H1 Hb) as (y1 & Hy1 & Hsy1 & Hgy1).
    destruct (select0_batch x2 b n2 d beta H2 Hb) as (y2 & Hy2 & Hsy2 & Hgy2).
    pose proof (period_length_of_log k lk Hlk) as Hpk.
    destruct (evaluate_unbatched k _ y1 y2 1 n1 n2 d Hpk Hslk Hsy1 Hsy2)
      as (t' & r' & _ & Hr' & _ & Hsr' & Hg').
    exists k, y1, y2, r'. repeat (split; [assumption|]).
    intros i j Hi Hj.
    destruct (Hg' 0%nat i j (Nat.lt_0_succ 0) Hi Hj) as [Ht' ->].
    destruct (Hg beta i j Hb Hi Hj) as [Ht ->].
    rewrite Ht', Ht, Hgy1, Hgy2.
    cbn [clamp texp map1 get batch_entry Nat.eqb].
    rewrite Hglk, Hek. reflexivity.
  - intros other l' x1' x2' r' Hl' Hs' He H1' H2' Hgl Hx1 Hx2 Hr' i j Hi Hj.
    pose proof (period_length_of_log other l' Hl') as Hp'.
    destruct (evaluate_batch other _ x1' x2' bs b n1 n2 d Hp' Hs' Hbs H1' H2')
      as (t' & r'' & _ & Hr'' & _ & _ & Hg').
    rewrite Hr' in Hr''. injection Hr'' as <-.
    destruct (Hg' beta i j Hb Hi Hj) as [Ht' ->].
    destruct (Hg beta i j Hb Hi Hj) as [Ht ->].
    rewrite Ht', Ht. cbn [clamp texp map1 get]. rewrite Hgl, He.
    do 3 f_equal.
    apply dist_ext; intros c Hc; unfold point3; [apply Hx1|apply Hx2];
      assumption.
Qed.

Lemma batch_independence_witness :
  exists r, evaluate batch2_kernel two_batches two_batches = Some r /\
    (exists k y1 y2 r',
       kernel_slice 1 batch2_kernel = Some k /\
       select0 1 two_batches = Some y1 /\ select0 1 two_batches = Some y2 /\
       evaluate k y1 y2 = Some r' /\ shape r' = [1; 2; 2]%nat /\
       forall i j, (i < 2)%nat -> (j < 2)%nat ->
         get r' [0%nat; i; j] = get r [1%nat; i; j]) /\
    (exists r', evaluate batch2_kernel two_batches_alt two_batches_alt = Some r' /\
       forall i j, (i < 2)%nat -> (j < 2)%nat ->
         get r' [1%nat; i; j] = get r [1%nat; i; j]).
Proof.
  destruct (batch_independence batch2_kernel (zeros [2; 1; 1]%nat)
              two_batches two_batches 2 2 2 2 2 1
              eq_refl eq_refl (or_introl eq_refl) eq_refl eq_refl
              (Nat.lt_succ_diag_r 1))
    as (r & Hr & Hslice & Hother).
  exists r. split; [exact Hr|]. split; [exact Hslice|].
  destruct (evaluate_valid batch2_kernel
              (clamp (texp (zeros [2; 1; 1]%nat)) default_eps 1e5)
              two_batches_alt two_batches_alt 2 eq_refl eq_refl)
    as (r' & Hr').
  { left. exists 2%nat, 2%nat, 2%nat, 2%nat.
    split; [left; reflexivity|]. split; reflexivity. }
  exists r'. split; [exact Hr'|].
  apply (Hother batch2_kernel (zeros [2; 1; 1]%nat)
           two_batches_alt two_batches_alt r');
    try reflexivity; try exact Hr';
    intros i c Hi Hc;
    (destruct i as [|[|i]]; [| |lia]);
    (destruct c as [|[|c]]; [| |lia]); reflexivity.
Defined.

(** ** Further properties of [forward] *)

Lemma bdim_none (a b : nat) :
  a <> b -> a <> 1%nat -> b <> 1%nat -> bdim a b = None.
Proof.
  intros Hab Ha Hb. unfold bdim.
  destruct (Nat.eqb_spec a b); [contradiction|].
  destruct (Nat.eqb_spec a 1); [contradiction|].
  destruct (Nat.eqb_spec b 1); [contradiction|reflexivity].
Qed.

Lemma bdim_some (a b c : nat) :
  bdim a b = Some c -> a = b \/ a = 1%nat \/ b = 1%nat.
Proof.
  unfold bdim.
  destruct (Nat.eqb_spec a b); [auto|].
  destruct (Nat.eqb_spec a 1); [auto|].
  destruct (Nat.eqb_spec b 1); [auto|discriminate].
Qed.

Lemma bdim_compatible (a b : nat) :
  a = b \/ a = 1%nat \/ b = 1%nat -> exists c, bdim a b = Some c.
Proof.
  intros [->|[->| ->]]; eexists;
    [apply bdim_refl|apply bdim_1_l|apply bdim_1_r].
Qed.

Lemma dist_nonneg (d : nat) (u v : nat -> R) : 0 <= dist d u v.
Proof. unfold dist. apply sqrt_pos. Qed.

Lemma sum_n_zero_inv (n : nat) (f : nat -> R) :
  (forall k, 0 <= f k) -> sum_n n f = 0 ->
  forall k, (k < n)%nat -> f k = 0.
Proof.
  intros Hf. induction n as [|n IH]; cbn [sum_n]; intros H k Hk; [lia|].
  pose proof (sum_n_nonneg n f Hf) as Hs. pose proof (Hf n) as Hn.
  destruct (Nat.eq_dec k n) as [->|Hne]; [lra|].
  apply IH; [lra|lia].
Qed.

Lemma dist_zero_iff (d : nat) (u v : nat -> R) :
  dist d u v = 0 <-> forall c, (c < d)%nat -> u c = v c.
Proof.
  split.
  - intros H c Hc. unfold dist in H.
    apply sqrt_eq_0 in H; [|apply sum_n_nonneg; intros k; apply Rle_0_sqr].
    pose proof (sum_n_zero_inv d _ (fun k => Rle_0_sqr (u k - v k)) H c Hc) as Hz.
    cbv beta in Hz. apply Rsqr_0_uniq in Hz. lra.
  - intros H. rewrite (dist_ext d u v v v H (fun _ _ => eq_refl)).
    apply dist_refl.
Qed.

(** X1. On two batches of shapes (b, n1, d) and (b, n2, d), [forward]
    alone returns a tensor of shape (b, n1, n2) whose entry (beta, i, j)
    is the cosine of pi times the Euclidean distance of point i of x1 and
    point j of x2: the period length plays no part in [forward]. *)
Theorem forward_cosine_of_distance (x1 x2 : tensor) (b n1 n2 d : nat) :
  shape x1 = [b; n1; d] -> shape x2 = [b; n2; d] ->
  exists r, forward x1 x2 = Some r /\ shape r = [b; n1; n2] /\
    forall beta i j, (beta < b)%nat -> (i < n1)%nat -> (j < n2)%nat ->
      get r [beta; i; j]
      = cos (PI * dist d (point3 x1 beta i) (point3 x2 beta j)).
Proof.
  intros H1 H2.
  destruct (forward_batch x1 x2 b n1 n2 d H1 H2) as (r & Hr & Hs & Hg).
  exists r. split; [exact Hr|]. split; [exact Hs|].
  intros beta i j Hb Hi Hj. rewrite Hg by assumption.
  f_equal. apply Rmult_comm.
Qed.

Lemma forward_cosine_of_distance_witness :
  exists r, forward two_batches two_batches = Some r /\ shape r = [2; 2; 2]%nat /\
    forall beta i j, (beta < 2)%nat -> (i < 2)%nat -> (j < 2)%nat ->
      get r [beta; i; j]
      = cos (PI * dist 2 (point3 two_batches beta i) (point3 two_batches beta j)).
Proof.
  apply (forward_cosine_of_distance two_batches two_batches 2 2 2 2);
    reflexivity.
Defined.

(** X2. On two three-axis inputs of shapes (b1, n1, d1) and (b2, n2, d2),
    [forward] returns a tensor exactly when the batch sizes are
    compatible for broadcasting (equal, or one of them 1) and so are the
    dimensions; otherwise it raises.  The numbers of points never
    matter. *)
Theorem forward_succeeds_iff (x1 x2 : tensor) (b1 b2 n1 n2 d1 d2 : nat) :
  shape x1 = [b1; n1; d1] -> shape x2 = [b2; n2; d2] ->
  (exists r, forward x1 x2 = Some r) <->
  (b1 = b2 \/ b1 = 1%nat \/ b2 = 1%nat) /\
  (d1 = d2 \/ d1 = 1%nat \/ d2 = 1%nat).
Proof.
  intros H1 H2. unfold forward, forward_diff, unsqueeze, ndimension.
  rewrite H1, H2. cbn [length Nat.leb bind firstn skipn app].
  unfold sub, map2, broadcast_shapes. cbn [shape rev app broadcast_rev].
  rewrite bdim_1_l, bdim_1_r. split.
  - intros (r & Hr).
    destruct (bdim d1 d2) as [d|] eqn:Ed; [|discriminate].
    destruct (bdim b1 b2) as [b|] eqn:Eb; [|discriminate].
    split; eapply bdim_some; eassumption.
  - intros [Hb Hd].
    destruct (bdim_compatible _ _ Hb) as (b & ->).
    destruct (bdim_compatible _ _ Hd) as (d & ->).
    cbn [bind option_map]. eexists. reflexivity.
Qed.

Lemma forward_succeeds_iff_witness :
  ~ (exists r, forward (zeros [2; 4; 3]%nat) (zeros [3; 5; 3]%nat) = Some r) /\
  (exists r, forward (zeros [2; 4; 3]%nat) (zeros [1; 5; 3]%nat) = Some r).
Proof.
  split.
  - intros H.
    apply (proj1 (forward_succeeds_iff (zeros [2; 4; 3]%nat) (zeros [3; 5; 3]%nat)
                    2 3 4 5 3 3 eq_refl eq_refl)) in H.
    destruct H as [[H|[H|H]] _]; discriminate.
  - apply (proj2 (forward_succeeds_iff (zeros [2; 4; 3]%nat) (zeros [1; 5; 3]%nat)
                    2 1 4 5 3 3 eq_refl eq_refl)).
    split; [right; right; reflexivity|left; reflexivity].
Defined.

(** X3. [forward] needs three-axis inputs to produce pairwise distances.
    Called directly on two unbatched inputs of the same shape (n, d) it
    raises nothing and returns a tensor of shape (n, d), not (n, n):
    entry (i, k) compares coordinate k of point i of x1 with all the
    coordinates of point i of x2.  With different numbers of points,
    neither of them 1, it raises. *)
Theorem forward_unbatched (x1 x2 : tensor) (n1 n2 d : nat) :
  shape x1 = [n1; d] -> shape x2 = [n2; d] ->
  (n1 = n2 ->
   exists r, forward x1 x2 = Some r /\ shape r = [n1; d] /\
     forall i k, (i < n1)%nat -> (k < d)%nat ->
       get r [i; k]
       = cos (PI * sqrt (sum_n d (fun c => Rsqr (get x1 [i; k] - get x2 [i; c]))))) /\
  (n1 <> n2 -> n1 <> 1%nat -> n2 <> 1%nat -> forward x1 x2 = None).
Proof.
  intros H1 H2. unfold forward, forward_diff, unsqueeze, ndimension.
  rewrite H1, H2. cbn [length Nat.leb bind firstn skipn app].
  unfold sub, map2, broadcast_shapes. cbn [shape rev app broadcast_rev].
  rewrite bdim_1_l, bdim_1_r. split.
  - intros <-. rewrite bdim_refl. cbn [bind option_map rev app].
    eexists. split; [reflexivity|]. unfold norm2_last.
    cbn [tcos mul map1 shape rev app]. split; [reflexivity|].
    intros i k Hi Hk. cbn [tcos mul map1 get]. rewrite (Rmult_comm PI).
    do 3 f_equal. apply sum_n_ext. intros c Hc. unfold bindex.
    cbn [rev app bindex_rev firstn skipn Nat.eqb].
    rewrite !bsel_lt by assumption. reflexivity.
  - intros Hn Hn1 Hn2. rewrite (bdim_none _ _ Hn Hn1 Hn2). reflexivity.
Qed.

Lemma forward_unbatched_witness :
  (exists r, forward two_points two_points = Some r /\ shape r = [2; 2]%nat /\
     forall i k, (i < 2)%nat -> (k < 2)%nat ->
       get r [i; k]
       = cos (PI * sqrt (sum_n 2 (fun c =>
                 Rsqr (get two_points [i; k] - get two_points [i; c]))))) /\
  forward (zeros [2; 3]%nat) (zeros [4; 3]%nat) = None.
Proof.
  split.
  - apply (proj1 (forward_unbatched two_points two_points 2 2 2
                    eq_refl eq_refl)). reflexivity.
  - apply (proj2 (forward_unbatched (zeros [2; 3]%nat) (zeros [4; 3]%nat) 2 4 3
                    eq_refl eq_refl)); discriminate.
Defined.

(** X4. The pairwise distances [forward] computes (its local [diff]) are
    never negative, and the distance at (beta, i, j) is zero exactly when
    point i of x1 and point j of x2 have the same coordinates. *)
Theorem forward_diff_zero_iff (x1 x2 : tensor) (b n1 n2 d : nat) :
  shape x1 = [b; n1; d] -> shape x2 = [b; n2; d] ->
  exists t, forward_diff x1 x2 = Some t /\
    forall beta i j, (beta < b)%nat -> (i < n1)%nat -> (j < n2)%nat ->
      0 <= get t [beta; i; j] /\
      (get t [beta; i; j] = 0 <->
       forall c, (c < d)%nat -> get x1 [beta; i; c] = get x2 [beta; j; c]).
Proof.
  intros H1 H2.
  destruct (forward_diff_batch x1 x2 b n1 n2 d H1 H2) as (t & Ht & _ & Hg).
  exists t. split; [exact Ht|].
  intros beta i j Hb Hi Hj. rewrite Hg by assumption.
  split; [apply dist_nonneg|apply dist_zero_iff].
Qed.

Lemma forward_diff_zero_iff_witness :
  exists t, forward_diff two_batches two_batches = Some t /\
    forall beta i j, (beta < 2)%nat -> (i < 2)%nat -> (j < 2)%nat ->
      0 <= get t [beta; i; j] /\
      (get t [beta; i; j] = 0 <->
       forall c, (c < 2)%nat ->
         get two_batches [beta; i; c] = get two_batches [beta; j; c]).
Proof.
  apply (forward_diff_zero_iff two_batches two_batches 2 2 2 2); reflexivity.
Defined.

(** ** Further properties of the composed evaluation *)

(** X5. Exchanging the two arguments transposes the result: entry
    (beta, j, i) of the evaluation of (x2, x1) is entry (beta, i, j) of
    the evaluation of (x1, x2), also when the two point sets differ. *)
Theorem evaluate_swap {Prior : Type} (self : CosineKernel Prior)
    (p x1 x2 : tensor) (bs b n1 n2 d : nat) :
  period_length self = Some p -> shape p = [bs; 1%nat; 1%nat] ->
  bs = b \/ bs = 1%nat ->
  shape x1 = [b; n1; d] -> shape x2 = [b; n2; d] ->
  exists r r', evaluate self x1 x2 = Some r /\ evaluate self x2 x1 = Some r' /\
    shape r = [b; n1; n2] /\ shape r' = [b; n2; n1] /\
    forall beta i j, (beta < b)%nat -> (i < n1)%nat -> (j < n2)%nat ->
      get r' [beta; j; i] = get r [beta; i; j].
Proof.
  intros Hp Hs Hbs H1 H2.
  destruct (evaluate_batch self p x1 x2 bs b n1 n2 d Hp Hs Hbs H1 H2)
    as (t & r & _ & Hr & _ & Hsr & Hg).
  destruct (evaluate_batch self p x2 x1 bs b n2 n1 d Hp Hs Hbs H2 H1)
    as (t' & r' & _ & Hr' & _ & Hsr' & Hg').
  exists r, r'. repeat (split; [assumption|]).
  intros beta i j Hb Hi Hj.
  destruct (Hg beta i j Hb Hi Hj) as [Ht ->].
  destruct (Hg' beta j i Hb Hj Hi) as [Ht' ->].
  rewrite Ht, Ht', dist_sym. reflexivity.
Qed.

Lemma evaluate_swap_witness :
  exists r r', evaluate default_kernel two_batches two_batches_alt = Some r /\
    evaluate default_kernel two_batches_alt two_batches = Some r' /\
    shape r = [2; 2; 2]%nat /\ shape r' = [2; 2; 2]%nat /\
    forall beta i j, (beta < 2)%nat -> (i < 2)%nat -> (j < 2)%nat ->
      get r' [beta; j; i] = get r [beta; i; j].
Proof.
  apply (evaluate_swap default_kernel
           (clamp (texp (zeros [1; 1; 1]%nat)) default_eps 1e5)
           two_batches two_batches_alt 1 2 2 2 2);
    [reflexivity | reflexivity | right; reflexivity | reflexivity | reflexivity].
Defined.

(** X6. Two unbatched inputs of shapes (n1, d) and (n2, d) are evaluated
    against every entry of the period length: the result has one
    (n1, n2) matrix for each of the batch_size period lengths, and entry
    (beta, i, j) is the cosine of pi times the distance of point i of x1
    and point j of x2 divided by period length beta. *)
Theorem evaluate_unbatched_formula {Prior : Type} (self : CosineKernel Prior)
    (p x1 x2 : tensor) (bs n1 n2 d : nat) :
  period_length self = Some p -> shape p = [bs; 1%nat; 1%nat] ->
  shape x1 = [n1; d] -> shape x2 = [n2; d] ->
  exists r, evaluate self x1 x2 = Some r /\ shape r = [bs; n1; n2] /\
    forall beta i j, (beta < bs)%nat -> (i < n1)%nat -> (j < n2)%nat ->
      get r [beta; i; j]
      = cos (PI * dist d (point2 x1 i) (point2 x2 j) / get p [beta; 0%nat; 0%nat]).
Proof.
  intros Hp Hs H1 H2.
  destruct (evaluate_unbatched self p x1 x2 bs n1 n2 d Hp Hs H1 H2)
    as (t & r & _ & Hr & _ & Hsr & Hg).
  exists r. split; [exact Hr|]. split; [exact Hsr|].
  intros beta i j Hb Hi Hj.
  destruct (Hg beta i j Hb Hi Hj) as [Ht ->]. rewrite Ht.
  rewrite (batch_entry_eq bs beta Hb). f_equal. unfold Rdiv. ring.
Qed.

Lemma evaluate_unbatched_formula_witness :
  exists r, evaluate batch2_kernel two_points two_points = Some r /\
    shape r = [2; 2; 2]%nat /\
    forall beta i j, (beta < 2)%nat -> (i < 2)%nat -> (j < 2)%nat ->
      get r [beta; i; j]
      = cos (PI * dist 2 (point2 two_points i) (point2 two_points j)
             / get (clamp (texp (zeros [2; 1; 1]%nat)) default_eps 1e5)
                 [beta; 0%nat; 0%nat]).
Proof.
  apply (evaluate_unbatched_formula batch2_kernel
           (clamp (texp (zeros [2; 1; 1]%nat)) default_eps 1e5)
           two_points two_points 2 2 2 2); reflexivity.
Defined.

(** X7. With two three-axis inputs, [preprocess_data] returns a pair
    exactly when the batch size of each input is compatible with the
    batch_size of the period length (equal to it, or one of the two is
    1); otherwise the division raises, and so does the composed
    evaluation. *)
Theorem preprocess_data_succeeds_iff {Prior : Type} (self : CosineKernel Prior)
    (p x1 x2 : tensor) (bs b1 b2 n1 n2 d1 d2 : nat) :
  period_length self = Some p -> shape p = [bs; 1%nat; 1%nat] ->
  shape x1 = [b1; n1; d1] -> shape x2 = [b2; n2; d2] ->
  ((exists y, preprocess_data self x1 x2 = Some y) <->
   (b1 = bs \/ b1 = 1%nat \/ bs = 1%nat) /\
   (b2 = bs \/ b2 = 1%nat \/ bs = 1%nat)) /\
  (preprocess_data self x1 x2 = None -> evaluate self x1 x2 = None).
Proof.
  intros Hp Hs H1 H2. split.
  - unfold preprocess_data, div, map2, broadcast_shapes.
    rewrite Hp. cbn [bind]. rewrite H1, H2, Hs.
    cbn [rev app broadcast_rev]. rewrite !bdim_1_r. cbn [bind]. split.
    + intros (y & Hy).
      destruct (bdim b1 bs) as [c1|] eqn:E1; [|discriminate].
      cbn [bind option_map] in Hy.
      destruct (bdim b2 bs) as [c2|] eqn:E2; [|discriminate].
      split; eapply bdim_some; eassumption.
    + intros [Hb1 Hb2].
      destruct (bdim_compatible _ _ Hb1) as (c1 & ->).
      destruct (bdim_compatible _ _ Hb2) as (c2 & ->).
      cbn [bind option_map]. eexists. reflexivity.
  - intros Hn. unfold evaluate. rewrite Hn. reflexivity.
Qed.

Lemma preprocess_data_succeeds_iff_witness :
  ~ (exists y, preprocess_data batch2_kernel
                 (zeros [3; 4; 2]%nat) (zeros [2; 4; 2]%nat) = Some y) /\
  evaluate batch2_kernel (zeros [3; 4; 2]%nat) (zeros [2; 4; 2]%nat) = None.
Proof.
  destruct (preprocess_data_succeeds_iff batch2_kernel
              (clamp (texp (zeros [2; 1; 1]%nat)) default_eps 1e5)
              (zeros [3; 4; 2]%nat) (zeros [2; 4; 2]%nat) 2 3 2 4 4 2 2
              eq_refl eq_refl eq_refl eq_refl) as [Hiff Hnone].
  assert (Hno : ~ (exists y, preprocess_data batch2_kernel
                     (zeros [3; 4; 2]%nat) (zeros [2; 4; 2]%nat) = Some y)).
  { intros H. apply (proj1 Hiff) in H.
    destruct H as [[H|[H|H]] _]; discriminate. }
  split; [exact Hno|].
  apply Hnone.
  destruct (preprocess_data batch2_kernel (zeros [3; 4; 2]%nat)
              (zeros [2; 4; 2]%nat)) as [y|] eqn:E; [|reflexivity].
  exfalso. apply Hno. exists y. reflexivity.
Defined.

(** A batch of one divided by a parameter [(batch_size, 1, 1)]: the one
    batch element is repeated for every entry of the parameter. *)
Lemma div_batch1 (x p : tensor) (n d bs : nat) :
  shape x = [1%nat; n; d] -> shape p = [bs; 1%nat; 1%nat] ->
  exists y, div x p = Some y /\ shape y = [bs; n; d] /\
    forall beta i c, (beta < bs)%nat -> (i < n)%nat -> (c < d)%nat ->
      get y [beta; i; c] = get x [0%nat; i; c] / get p [beta; 0%nat; 0%nat].
Proof.
  intros Hx Hp. unfold div, map2, broadcast_shapes.
  rewrite Hx, Hp. cbn [rev app broadcast_rev].
  rewrite !bdim_1_r, bdim_1_l. cbn [bind option_map rev app].
  eexists. split; [reflexivity|]. split; [reflexivity|].
  intros beta i c Hb Hi Hc. cbn [get]. unfold bindex.
  cbn [rev app bindex_rev Nat.eqb]. rewrite !bsel_lt by assumption.
  reflexivity.
Qed.

(** X8. Two batches of one, of shapes (1, n1, d) and (1, n2, d), given to
    a kernel with batch_size period lengths, are evaluated against each
    of them: the result has shape (batch_size, n1, n2) and entry
    (beta, i, j) uses the only batch element of the inputs and period
    length beta. *)
Theorem evaluate_batch_of_one {Prior : Type} (self : CosineKernel Prior)
    (p x1 x2 : tensor) (bs n1 n2 d : nat) :
  period_length self = Some p -> shape p = [bs; 1%nat; 1%nat] ->
  shape x1 = [1%nat; n1; d] -> shape x2 = [1%nat; n2; d] ->
  exists r, evaluate self x1 x2 = Some r /\ shape r = [bs; n1; n2] /\
    forall beta i j, (beta < bs)%nat -> (i < n1)%nat -> (j < n2)%nat ->
      get r [beta; i; j]
      = cos (PI * dist d (point3 x1 0 i) (point3 x2 0 j)
             / get p [beta; 0%nat; 0%nat]).
Proof.
  intros Hp Hs H1 H2.
  destruct (div_batch1 x1 p n1 d bs H1 Hs) as (y1 & Hy1 & Hs1 & Hg1).
  destruct (div_batch1 x2 p n2 d bs H2 Hs) as (y2 & Hy2 & Hs2 & Hg2).
  destruct (forward_batch y1 y2 bs n1 n2 d Hs1 Hs2) as (r & Hr & Hsr & Hg).
  exists r. split; [|split; [exact Hsr|]].
  - unfold evaluate, preprocess_data. rewrite Hp. cbn [bind].
    rewrite Hy1. cbn [bind]. rewrite Hy2. cbn [bind]. exact Hr.
  - intros beta i j Hb Hi Hj. rewrite Hg by assumption.
    rewrite (dist_ext d _ (fun c => point3 x1 0 i c / get p [beta; 0%nat; 0%nat])
               _ (fun c => point3 x2 0 j c / get p [beta; 0%nat; 0%nat])).
    + rewrite dist_div by (eapply period_length_pos; eassumption).
      f_equal. unfold Rdiv. ring.
    + intros c Hc. unfold point3. apply Hg1; assumption.
    + intros c Hc. unfold point3. apply Hg2; assumption.
Qed.

Lemma evaluate_batch_of_one_witness :
  exists r, evaluate batch2_kernel two_points_batch far_points_batch = Some r /\
    shape r = [2; 2; 2]%nat /\
    forall beta i j, (beta < 2)%nat -> (i < 2)%nat -> (j < 2)%nat ->
      get r [beta; i; j]
      = cos (PI * dist 2 (point3 two_points_batch 0 i) (point3 far_points_batch 0 j)
             / get (clamp (texp (zeros [2; 1; 1]%nat)) default_eps 1e5)
                 [beta; 0%nat; 0%nat]).
Proof.
  apply (evaluate_batch_of_one batch2_kernel
           (clamp (texp (zeros [2; 1; 1]%nat)) default_eps 1e5)
           two_points_batch far_points_batch 2 2 2 2); reflexivity.
Defined.

(** ** Further properties of [period_length] *)

Lemma clamp1_monotone (lo hi x y : R) :
  x <= y -> clamp1 lo hi x <= clamp1 lo hi y.
Proof.
  intros H. unfold clamp1, Rmin, Rmax.
  destruct (Rle_dec x lo); destruct (Rle_dec y lo);
    repeat match goal with |- context [Rle_dec ?a ?b] => destruct (Rle_dec a b) end;
    lra.
Qed.

Lemma exp_monotone (x y : R) : x <= y -> exp x <= exp y.
Proof.
  intros [H| ->]; [left; apply exp_increasing; exact H|right; reflexivity].
Qed.

(** X9. The period length never decreases when the parameter grows: for
    two kernels with the same [eps], an entry of log_period_length that
    is not larger gives an entry of period_length that is not larger. *)
Theorem period_length_monotone {Prior : Type} (self other : CosineKernel Prior)
    (l l' p p' : tensor) (idx : list nat) :
  log_period_length self = Some l -> log_period_length other = Some l' ->
  period_length self = Some p -> period_length other = Some p' ->
  eps self = eps other ->
  get l idx <= get l' idx -> get p idx <= get p' idx.
Proof.
  intros Hl Hl' Hp Hp' He Hle.
  rewrite (period_length_of_log self l Hl) in Hp. injection Hp as <-.
  rewrite (period_length_of_log other l' Hl') in Hp'. injection Hp' as <-.
  cbn [clamp texp map1 get]. rewrite He.
  apply clamp1_monotone, exp_monotone. exact Hle.
Qed.

Lemma period_length_monotone_witness :
  get (clamp (texp (zeros [1; 1; 1]%nat)) default_eps 1e5) [0; 0; 0]%nat
  <= get (clamp (texp (full [1; 1; 1]%nat (ln 2))) default_eps 1e5) [0; 0; 0]%nat.
Proof.
  apply (period_length_monotone default_kernel period2_kernel
           (zeros [1; 1; 1]%nat) (full [1; 1; 1]%nat (ln 2)));
    [reflexivity | reflexivity | reflexivity | reflexivity | reflexivity |].
  cbn [zeros full get]. rewrite <- ln_1. left. apply ln_increasing; lra.
Defined.

(** X10. The three regimes of the clamp, for [eps <= 1e5]: where
    exp(log_period_length) lies between [eps] and 1e5 the period length
    is that exponential, unchanged; where it is at most [eps] the period
    length is [eps]; where it is at least 1e5 the period length is
    1e5. *)
Theorem period_length_regimes {Prior : Type} (self : CosineKernel Prior)
    (l p : tensor) (idx : list nat) :
  log_period_length self = Some l -> period_length self = Some p ->
  eps self <= 1e5 ->
  (eps self <= exp (get l idx) <= 1e5 -> get p idx = exp (get l idx)) /\
  (exp (get l idx) <= eps self -> get p idx = eps self) /\
  (1e5 <= exp (get l idx) -> get p idx = 1e5).
Proof.
  intros Hl Hp He.
  rewrite (period_length_of_log self l Hl) in Hp. injection Hp as <-.
  cbn [clamp texp map1 get]. unfold clamp1, Rmin, Rmax.
  repeat split; intros H;
    destruct (Rle_dec (exp (get l idx)) (eps self));
    repeat match goal with |- context [Rle_dec ?a ?b] => destruct (Rle_dec a b) end;
    lra.
Qed.

Lemma period_length_regimes_witness :
  get (clamp (texp (full [1; 1; 1]%nat (ln 2))) default_eps 1e5) [0; 0; 0]%nat
  = exp (ln 2).
Proof.
  apply (proj1 (period_length_regimes period2_kernel
                  (full [1; 1; 1]%nat (ln 2))
                  (clamp (texp (full [1; 1; 1]%nat (ln 2))) default_eps 1e5)
                  [0; 0; 0]%nat eq_refl eq_refl
                  ltac:(cbn [period2_kernel set_log_period_length default_kernel
                             __init__ eps]; unfold default_eps; lra))).
  cbn [period2_kernel set_log_period_length default_kernel __init__ eps full get].
  rewrite exp_ln by lra. unfold default_eps. lra.
Defined.

(** ** A new kernel, and the period of the kernel *)

(** X11. Right after construction with [eps <= 1] the period length is
    1 and [preprocess_data] changes nothing that [forward] sees: on two
    batches the composed evaluation and [forward] alone return the same
    tensor. *)
Theorem evaluate_new_kernel_is_forward {Prior : Type}
    (dims : option (list nat)) (bs : nat) (prior : option Prior) (e : R)
    (x1 x2 : tensor) (b n1 n2 d : nat) :
  e <= 1 -> bs = b \/ bs = 1%nat ->
  shape x1 = [b; n1; d] -> shape x2 = [b; n2; d] ->
  exists r r', evaluate (__init__ dims bs prior e) x1 x2 = Some r /\
    forward x1 x2 = Some r' /\ teq r r'.
Proof.
  intros He Hbs H1 H2.
  destruct (evaluate_batch (__init__ dims bs prior e)
              (clamp (texp (zeros [bs; 1%nat; 1%nat])) e 1e5)
              x1 x2 bs b n1 n2 d eq_refl eq_refl Hbs H1 H2)
    as (t & r & _ & Hr & _ & Hsr & Hg).
  destruct (forward_batch x1 x2 b n1 n2 d H1 H2) as (r' & Hr' & Hsr' & Hg').
  exists r, r'. split; [exact Hr|]. split; [exact Hr'|].
  split; [congruence|].
  intros idx Hin. rewrite Hsr in Hin.
  apply in_range3 in Hin. destruct Hin as (beta & i & j & -> & Hb & Hi & Hj).
  destruct (Hg beta i j Hb Hi Hj) as [Ht ->]. rewrite Ht, Hg' by assumption.
  cbn [clamp texp map1 zeros full get]. rewrite exp_0.
  rewrite clamp1_inside by lra. f_equal. unfold Rdiv. rewrite Rinv_1. ring.
Qed.

Lemma evaluate_new_kernel_is_forward_witness :
  exists r r', evaluate default_kernel two_batches two_batches_alt = Some r /\
    forward two_batches two_batches_alt = Some r' /\ teq r r'.
Proof.
  apply (evaluate_new_kernel_is_forward (Prior:=unit) None 1 None default_eps
           two_batches two_batches_alt 2 2 2 2);
    [unfold default_eps; lra | right; reflexivity | reflexivity | reflexivity].
Defined.

(** X12. The kernel value is periodic in the distance, with period twice
    the period length: two pairs of points of one batch element whose
    distances differ by an even multiple of that element's period length
    get the same entry.  Nothing in the code reduces the distance
    first. *)
Theorem evaluate_periodic {Prior : Type} (self : CosineKernel Prior)
    (p x1 x2 : tensor) (bs b n1 n2 d : nat) :
  period_length self = Some p -> shape p = [bs; 1%nat; 1%nat] ->
  bs = b \/ bs = 1%nat ->
  shape x1 = [b; n1; d] -> shape x2 = [b; n2; d] ->
  exists r, evaluate self x1 x2 = Some r /\
    forall beta i j i' j' (k : nat),
      (beta < b)%nat -> (i < n1)%nat -> (j < n2)%nat ->
      (i' < n1)%nat -> (j' < n2)%nat ->
      dist d (point3 x1 beta i') (point3 x2 beta j')
      = dist d (point3 x1 beta i) (point3 x2 beta j)
        + 2 * INR k * get p [batch_entry bs beta; 0%nat; 0%nat] ->
      get r [beta; i'; j'] = get r [beta; i; j].
Proof.
  intros Hp Hs Hbs H1 H2.
  destruct (evaluate_batch self p x1 x2 bs b n1 n2 d Hp Hs Hbs H1 H2)
    as (t & r & _ & Hr & _ & _ & Hg).
  exists r. split; [exact Hr|].
  intros beta i j i' j' k Hb Hi Hj Hi' Hj' Hd.
  destruct (Hg beta i j Hb Hi Hj) as [Ht ->].
  destruct (Hg beta i' j' Hb Hi' Hj') as [Ht' ->].
  rewrite Ht, Ht', Hd.
  pose proof (period_length_pos self p [batch_entry bs beta; 0%nat; 0%nat] Hp)
    as Hpos.
  set (P := get p [batch_entry bs beta; 0%nat; 0%nat]) in *.
  set (D := dist d (point3 x1 beta i) (point3 x2 beta j)).
  replace ((D + 2 * INR k * P) / P * PI) with (D / P * PI + 2 * INR k * PI)
    by (field; lra).
  apply cos_period.
Qed.

Lemma dist_far_points :
  dist 2 (point3 far_points_batch 0 0) (point3 far_points_batch 0 1) = 2.
Proof.
  unfold dist, point3, far_points_batch, tensor3. cbn [sum_n get nth].
  replace (0 + Rsqr (0 - 2) + Rsqr (0 - 0)) with (Rsqr 2) by (unfold Rsqr; ring).
  apply sqrt_Rsqr. lra.
Qed.

Lemma evaluate_periodic_witness :
  exists r, evaluate default_kernel far_points_batch far_points_batch = Some r /\
    get r [0; 0; 1]%nat = get r [0; 0; 0]%nat.
Proof.
  destruct (evaluate_periodic default_kernel
              (clamp (texp (zeros [1; 1; 1]%nat)) default_eps 1e5)
              far_points_batch far_points_batch 1 1 2 2 2
              eq_refl eq_refl (or_introl eq_refl) eq_refl eq_refl)
    as (r & Hr & Hper).
  exists r. split; [exact Hr|].
  apply (Hper 0 0 0 0 1 1)%nat; try lia.
  rewrite dist_far_points, dist_refl.
  cbn [batch_entry Nat.eqb clamp texp map1 zeros full get INR].
  rewrite exp_0, clamp1_inside by (unfold default_eps; lra). lra.
Defined.

(** X13. Landmark values of the kernel on two batches: the entry is 1
    when the two points have the same coordinates (also for points of
    different tensors), 0 when their distance is half the period length,
    and -1 when their distance is the period length. *)
Theorem evaluate_landmarks {Prior : Type} (self : CosineKernel Prior)
    (p x1 x2 : tensor) (bs b n1 n2 d : nat) :
  period_length self = Some p -> shape p = [bs; 1%nat; 1%nat] ->
  bs = b \/ bs = 1%nat ->
  shape x1 = [b; n1; d] -> shape x2 = [b; n2; d] ->
  exists r, evaluate self x1 x2 = Some r /\
    forall beta i j, (beta < b)%nat -> (i < n1)%nat -> (j < n2)%nat ->
      ((forall c, (c < d)%nat -> get x1 [beta; i; c] = get x2 [beta; j; c]) ->
       get r [beta; i; j] = 1) /\
      (dist d (point3 x1 beta i) (point3 x2 beta j)
       = get p [batch_entry bs beta; 0%nat; 0%nat] / 2 ->
       get r [beta; i; j] = 0) /\
      (dist d (point3 x1 beta i) (point3 x2 beta j)
       = get p [batch_entry bs beta; 0%nat; 0%nat] ->
       get r [beta; i; j] = -1).
Proof.
  intros Hp Hs Hbs H1 H2.
  destruct (evaluate_batch self p x1 x2 bs b n1 n2 d Hp Hs Hbs H1 H2)
    as (t & r & _ & Hr & _ & _ & Hg).
  exists r. split; [exact Hr|].
  intros beta i j Hb Hi Hj.
  destruct (Hg beta i j Hb Hi Hj) as [Ht ->]. rewrite Ht.
  pose proof (period_length_pos self p [batch_entry bs beta; 0%nat; 0%nat] Hp)
    as Hpos.
  set (P := get p [batch_entry bs beta; 0%nat; 0%nat]) in *.
  repeat split.
  - intros Heq. apply (proj2 (dist_zero_iff d _ _)) in Heq.
    unfold point3. unfold point3 in Heq. rewrite Heq.
    unfold Rdiv. rewrite !Rmult_0_l. apply cos_0.
  - intros ->. replace (P / 2 / P * PI) with (PI / 2) by (field; lra).
    apply cos_PI2.
  - intros ->. replace (P / P * PI) with PI by (field; lra).
    apply cos_PI.
Qed.

Lemma evaluate_landmarks_witness :
  exists r, evaluate period2_kernel far_points_batch far_points_batch = Some r /\
    get r [0; 0; 0]%nat = 1 /\ get r [0; 0; 1]%nat = -1.
Proof.
  destruct (evaluate_landmarks period2_kernel
              (clamp (texp (full [1; 1; 1]%nat (ln 2))) default_eps 1e5)
              far_points_batch far_points_batch 1 1 2 2 2
              eq_refl eq_refl (or_introl eq_refl) eq_refl eq_refl)
    as (r & Hr & Hl).
  exists r. split; [exact Hr|]. split.
  - apply (proj1 (Hl 0 0 0 ltac:(lia) ltac:(lia) ltac:(lia))%nat).
    intros c _. reflexivity.
  - apply (proj2 (proj2 (Hl 0 0 1 ltac:(lia) ltac:(lia) ltac:(lia))%nat)).
    rewrite dist_far_points. cbn [batch_entry Nat.eqb].
    symmetry. exact period2_kernel_period.
Defined.
